(** * DocumentationScraper (mini/scrape_docs.py): a shallow embedding

    The crawler of [scrape_docs.py] is embedded function by function.
    A Python string is the list of its characters, a character being its
    Unicode code point.  White space is the set of code points that
    [str.isspace] accepts; which characters beyond ASCII are letters or
    digits is a table of the interpreter and a field of [Libs].
    The sets [visited_urls] and [urls_to_visit] are finite sets of strings.
    Library calls whose code is not part of the repository (urljoin, the
    host checks of urlsplit, html2text, the serialisation of a tag) are
    fields of the class [Libs] as well; what the network and the disk
    answer is a label on the transitions of the crawl loop. *)

From Stdlib Require Import Ascii String NArith.
From stdpp Require Import base decidable option list gmap sets strings.

(** ** Characters and strings *)

Record char := Char { code : N }.

#[global] Instance char_eq_dec : EqDecision char.
Proof. solve_decision. Defined.

#[global] Instance char_countable : Countable char.
Proof. apply (inj_countable' code Char). by intros []. Defined.

(** The code points that a sequence of UTF-8 bytes stands for: [need]
    bytes of the character at hand are still to come, [acc] holds the bits
    read so far. *)
Fixpoint utf8_decode (need : nat) (acc : N) (bs : list N) : list char :=
  match bs with
  | [] => []
  | b :: t =>
      match need with
      | O =>
          if (b <? 128)%N then Char b :: utf8_decode 0 0 t
          else if (b <? 224)%N then utf8_decode 1 (b - 192) t
          else if (b <? 240)%N then utf8_decode 2 (b - 224) t
          else utf8_decode 3 (b - 240) t
      | S k =>
          let acc := (acc * 64 + b `mod` 64)%N in
          match k with
          | O => Char acc :: utf8_decode 0 0 t
          | S _ => utf8_decode k acc t
          end
      end
  end.

Definition digit_of (b : N) : option N :=
  if ((48 <=? b) && (b <=? 57))%N then Some (b - 48)%N else None.

(** A character literal is one character of the source text, or three
    decimal digits that give a code below 1000. *)
Definition char_of_bytes (bs : list Byte.byte) : option char :=
  let ns := map Byte.to_N bs in
  match ns with
  | [a; b; c] =>
      match digit_of a, digit_of b, digit_of c with
      | Some x, Some y, Some z => Some (Char (x * 100 + y * 10 + z))
      | _, _, _ => match utf8_decode 0 0 ns with [c] => Some c | _ => None end
      end
  | _ => match utf8_decode 0 0 ns with [c] => Some c | _ => None end
  end.

Definition bytes_of_char (c : char) : option (list Byte.byte) :=
  if ((32 <=? code c) && (code c <=? 126) && negb (code c =? 34))%N
  then match Byte.of_N (code c) with Some b => Some [b] | None => None end
  else None.

Declare Scope pychar_scope.
Delimit Scope pychar_scope with pychar.
Bind Scope pychar_scope with char.
String Notation char char_of_bytes bytes_of_char : pychar_scope.

Local Open Scope pychar_scope.
Local Open Scope list_scope.

Abbreviation str := (list char).

(** A string literal as a Python [str]. *)
Definition lit (s : string) : str :=
  utf8_decode 0 0 (map N_of_ascii (list_ascii_of_string s)).

(** ** Python's string methods *)

Module PyStr.

Definition eqc (a b : char) : bool := (code a =? code b)%N.

Definition is_slash (c : char) : bool := eqc c "/".

Definition between (lo hi : N) (c : char) : bool :=
  ((lo <=? code c) && (code c <=? hi))%N.

(** [c.isascii()]. *)
Definition is_ascii (c : char) : bool := (code c <? 128)%N.

(** The ASCII letters and digits. *)
Definition is_lower (c : char) : bool := between 97 122 c.
Definition is_upper (c : char) : bool := between 65 90 c.
Definition is_digit (c : char) : bool := between 48 57 c.
Definition is_ascii_alpha (c : char) : bool := is_lower c || is_upper c.
Definition is_ascii_alnum (c : char) : bool := is_ascii_alpha c || is_digit c.

(** [c.isspace()], which is also what [str.strip()] removes and what the
    class [\s] of [re] matches: TAB..CR, FS..US, the space, NEL, the
    no-break space and the space characters of the higher planes. *)
Definition is_space (c : char) : bool :=
  between 9 13 c || between 28 32 c
  || between 0x85 0x85 c || between 0xa0 0xa0 c
  || between 0x1680 0x1680 c || between 0x2000 0x200a c
  || between 0x2028 0x2029 c || between 0x202f 0x202f c
  || between 0x205f 0x205f c || between 0x3000 0x3000 c.

(** [str.lower] on one character of a URL scheme, which is ASCII. *)
Definition lower_char (c : char) : char :=
  if is_upper c then Char (code c + 32) else c.

Definition lower (s : str) : str := map lower_char s.

(** [s.lstrip(chars)], the characters given as a predicate. *)
Fixpoint lstrip (p : char -> bool) (s : str) : str :=
  match s with
  | [] => []
  | c :: t => if p c then lstrip p t else s
  end.

(** [s.rstrip(chars)]. *)
Fixpoint rstrip (p : char -> bool) (s : str) : str :=
  match s with
  | [] => []
  | c :: t =>
      match rstrip p t with
      | [] => if p c then [] else [c]
      | r => c :: r
      end
  end.

(** [s.strip(chars)]. *)
Definition strip (p : char -> bool) (s : str) : str := rstrip p (lstrip p s).

(** [s.startswith(pre)]. *)
Fixpoint startswith (pre s : str) : bool :=
  match pre, s with
  | [], _ => true
  | _ :: _, [] => false
  | a :: pre', b :: s' => eqc a b && startswith pre' s'
  end.

(** [s.endswith(suf)]. *)
Definition endswith (suf s : str) : bool :=
  startswith (reverse suf) (reverse s).

(** [c in s]. *)
Definition contains (c : char) (s : str) : bool :=
  existsb (fun a => eqc a c) s.

(** [s.split(c)[0]]: the text before the first [c], all of [s] without. *)
Fixpoint before (c : char) (s : str) : str :=
  match s with
  | [] => []
  | a :: t => if eqc a c then [] else a :: before c t
  end.

(** The text after the first [c]; empty when [c] is absent. *)
Fixpoint after (c : char) (s : str) : str :=
  match s with
  | [] => []
  | a :: t => if eqc a c then t else after c t
  end.

(** [s.replace(old, '')]: the occurrences of [old] are found from left
    to right and do not overlap.  [skip] counts the characters of the
    occurrence being removed that are still ahead. *)
Fixpoint remove_go (old : str) (skip : nat) (s : str) : str :=
  match s with
  | [] => []
  | c :: t =>
      match skip with
      | S k => remove_go old k t
      | O =>
          if startswith old s then remove_go old (length old - 1) t
          else c :: remove_go old 0 t
      end
  end.

Definition remove_all (old s : str) : str :=
  match old with
  | [] => s
  | _ :: _ => remove_go old 0 s
  end.


End PyStr.

Import PyStr.

(** ** The scraper object *)

Record DocumentationScraper := mkScraper {
  base_url : str;
  output_dir : str;
  visited_urls : gset str;
  urls_to_visit : gset str;
  scraped_count : nat
}.

(** [__init__]: the prefix loses its trailing slashes, the seed is the
    argument as it was given. *)
Definition init (base output : str) : DocumentationScraper :=
  {| base_url := rstrip is_slash base;
     output_dir := output;
     visited_urls := ∅;
     urls_to_visit := {[ base ]};
     scraped_count := 0 |}.

(** [is_valid_url]; [None] is Python's [None]. *)
Definition is_valid_url (self : DocumentationScraper) (url : option str) : bool :=
  match url with
  | None => false
  | Some [] => false
  | Some u => startswith (base_url self) (rstrip is_slash u)
  end.

(** ** The libraries

    [urllib.parse.ParseResult]. *)
Record ParseResult := mkParse {
  scheme : str;
  netloc : str;
  path : str;
  params : str;
  query : str;
  fragment : str
}.

Module Html.

(** A parsed document as BeautifulSoup holds it: strings and tags with
    attributes and children.  [Text] is a string that counts as text;
    [Comment] stands for the strings that do not (comments, declarations,
    the content of script and style).  The soup itself is the tag
    [[document]]. *)
#[local] Set Warnings "-register-all".
Inductive node :=
| Text (s : str)
| Comment (s : str)
| Tag (name : str) (attrs : list (str * str)) (children : list node).

Definition soup_of (children : list node) : node :=
  Tag (lit "[document]") [] children.

(** [tag.descendants]: everything below the tag, in document order. *)
Fixpoint subtree (n : node) : list node :=
  n :: match n with
       | Tag _ _ cs =>
           (fix go (l : list node) : list node :=
              match l with
              | [] => []
              | c :: t => subtree c ++ go t
              end) cs
       | _ => []
       end.

Definition descendants (n : node) : list node := tail (subtree n).

Definition is_tag (name : str) (n : node) : bool :=
  match n with
  | Tag nm _ _ => bool_decide (nm = name)
  | _ => false
  end.

Fixpoint assoc (k : str) (l : list (str * str)) : option str :=
  match l with
  | [] => None
  | (k', v) :: t => if bool_decide (k' = k) then Some v else assoc k t
  end.

(** [tag.get(key)]. *)
Definition get (key : str) (n : node) : option str :=
  match n with
  | Tag _ a _ => assoc key a
  | _ => None
  end.

Definition has_attr (key val : str) (n : node) : bool :=
  bool_decide (get key n = Some val).

(** [soup.find(...)]: the first descendant that matches. *)
Definition find (p : node -> bool) (soup : node) : option node :=
  head (filter (fun n => p n = true) (descendants soup)).

(** [soup.find_all(...)]. *)
Definition find_all (p : node -> bool) (soup : node) : list node :=
  filter (fun n => p n = true) (descendants soup).

(** [tag.get_text(strip=True)]: every string below the tag is stripped,
    the empty ones are dropped and the rest is joined without a
    separator.  Comments are not text. *)
Definition stripped_strings (n : node) : list str :=
  filter (fun s => s <> [])
    (omap (fun d => match d with
                    | Text s => Some (strip is_space s)
                    | _ => None
                    end) (descendants n)).

Definition get_text_strip (n : node) : str := concat (stripped_strings n).

(** The words of a [class] attribute. *)
Fixpoint words_go (cur : str) (s : str) : list str :=
  match s with
  | [] => match cur with [] => [] | _ => [cur] end
  | c :: t =>
      if is_space c
      then match cur with [] => words_go [] t | _ => cur :: words_go [] t end
      else words_go (cur ++ [c]) t
  end.

Definition words (s : str) : list str := words_go [] s.

(** The selectors [extract_content] uses. *)
Inductive selector :=
| ByTag (name : str)
| ByAttr (key val : str)
| ByClass (cls : str)
| ById (id : str).

Definition matches (sel : selector) (n : node) : bool :=
  match sel with
  | ByTag name => is_tag name n
  | ByAttr k v => has_attr k v n
  | ByClass c =>
      match get (lit "class") n with
      | Some v => bool_decide (c ∈ words v)
      | None => false
      end
  | ById i => has_attr (lit "id") i n
  end.

(** [soup.select_one(selector)]. *)
Definition select_one (sel : selector) (soup : node) : option node :=
  find (matches sel) soup.

(** What is left of a list of children once every tag with one of the
    [names] below it has been decomposed. *)
Fixpoint decompose_all (names : list str) (n : node) : node :=
  match n with
  | Tag nm a cs =>
      Tag nm a
        ((fix go (l : list node) : list node :=
            match l with
            | [] => []
            | c :: t =>
                if existsb (fun nm' => is_tag nm' c) names then go t
                else decompose_all names c :: go t
            end) cs)
  | _ => n
  end.

(** The same document with its first tag [name] rewritten by [f];
    [None] when there is no such tag below [n]. *)
Fixpoint rewrite_first (name : str) (f : node -> node) (n : node)
  : option node :=
  match n with
  | Tag nm a cs =>
      option_map (Tag nm a)
        ((fix go (l : list node) : option (list node) :=
            match l with
            | [] => None
            | c :: t =>
                if is_tag name c then Some (f c :: t)
                else match rewrite_first name f c with
                     | Some c' => Some (c' :: t)
                     | None => option_map (cons c) (go t)
                     end
            end) cs)
  | _ => None
  end.

End Html.

(** html2text's settings that [html_to_mdx] touches. *)
Record HTML2Text := mkH2T {
  ignore_links : bool;
  body_width : nat
}.

Class Libs := {
  (** [c.isalnum()] for a character beyond ASCII, from the Unicode
      database of the interpreter. *)
  unicode_alnum : char -> bool;
  (** [urllib.parse._check_bracketed_netloc]: false when it raises. *)
  bracketed_netloc_ok : str -> bool;
  (** [urllib.parse._checknetloc] on a host that is not ASCII, with the
      NFKC form that [unicodedata] gives: false when it raises. *)
  nfkc_netloc_ok : str -> bool;
  (** [urllib.parse.urljoin base url]; [None] when it raises ValueError. *)
  urljoin : str -> str -> option str;
  (** [str(tag)], BeautifulSoup's serialisation of a subtree. *)
  tag_to_str : Html.node -> str;
  (** html2text: the markup rendered as Markdown under the settings, and
      the wrapping of rendered text at a width. *)
  render : HTML2Text -> str -> str;
  wrap : nat -> str -> str
}.

(** Modelled from the spec: html2text is not part of the repository.  The
    specification has the subtree rendered "with no fixed line-wrap width
    (lines are not hard-wrapped)"; [body_width] is that width, and 0
    stands for none.  [HTML2Text.handle] renders the markup and then wraps
    the lines at the body width, if there is one. *)
Definition handle `{Libs} (h : HTML2Text) (html : str) : str :=
  match body_width h with
  | O => render h html
  | S _ => wrap (body_width h) (render h html)
  end.

(** ** url_to_filename *)

(** [c.isalnum()]: the ASCII letters and digits, and beyond ASCII what
    the Unicode database says. *)
Definition isalnum `{Libs} (c : char) : bool :=
  if is_ascii c then is_ascii_alnum c else unicode_alnum c.

(** The class [\w] of [re] for a [str] pattern: alphanumeric or the
    underscore. *)
Definition is_word `{Libs} (c : char) : bool := isalnum c || eqc c "_".

(** The class [\w\-_\.] of the first substitution. *)
Definition keep_char `{Libs} (c : char) : bool :=
  is_word c || eqc c "-" || eqc c "_" || eqc c ".".

Definition is_us (c : char) : bool := eqc c "_".

(** [re.sub(r'[^\w\-_\.]', '_', path)]. *)
Definition sub_special `{Libs} (s : str) : str :=
  map (fun c => if keep_char c then c else "_") s.

Definition head_is (p : char -> bool) (s : str) : bool :=
  match s with
  | [] => false
  | c :: _ => p c
  end.

(** [re.sub(r'_+', '_', filename)]. *)
Fixpoint sub_underscores (s : str) : str :=
  match s with
  | [] => []
  | c :: t =>
      if is_us c && head_is is_us t then sub_underscores t
      else c :: sub_underscores t
  end.

Definition mdx : str := lit ".mdx".

Definition url_to_filename `{Libs} (self : DocumentationScraper) (url : str)
  : str :=
  let path := strip is_slash (remove_all (base_url self) url) in
  let path := match path with [] => lit "index" | _ => path end in
  let path := before "?" path in
  let filename := sub_special path in
  let filename := sub_underscores filename in
  if endswith mdx filename then filename else filename ++ mdx.

(** ** urllib.parse: urlsplit and urlparse

    The standard library's algorithm, step by step.  Two checks of urlsplit
    raise ValueError; the result is [None] then.  The validation of a
    bracketed (IPv6) host and the NFKC check of a host that is not ASCII
    are the library's and are taken through [Libs]. *)

Module UrlLib.

Definition is_c0_or_space (c : char) : bool := (code c <=? 32)%N.

Definition is_unsafe (c : char) : bool :=
  eqc c "009" || eqc c "010" || eqc c "013".

Definition is_scheme_char (c : char) : bool :=
  is_ascii_alnum c || eqc c "+" || eqc c "-" || eqc c ".".

Definition is_delim (c : char) : bool :=
  eqc c "/" || eqc c "?" || eqc c "#".

Definition uses_params : list str :=
  [] :: map lit ["ftp"; "hdl"; "prospero"; "http"; "imap"; "https"; "shttp";
                 "rtsp"; "rtspu"; "sip"; "sips"; "mms"; "sftp"; "tel"]%string.

(** The characters before the first one that satisfies [p]. *)
Fixpoint take_until (p : char -> bool) (s : str) : str :=
  match s with
  | [] => []
  | c :: t => if p c then [] else c :: take_until p t
  end.

(** The rest, from the first character that satisfies [p]. *)
Fixpoint drop_until (p : char -> bool) (s : str) : str :=
  match s with
  | [] => []
  | c :: t => if p c then s else drop_until p t
  end.

(** [i = url.find(':')] with [i > 0], an ASCII letter first and scheme
    characters up to [i]: the scheme is cut off and lower-cased. *)
Definition split_scheme (url : str) : str * str :=
  if contains ":" url && head_is is_ascii_alpha url
     && forallb is_scheme_char (before ":" url)
  then (lower (before ":" url), after ":" url)
  else ([], url).

(** [_splitnetloc(url, 2)] behind a leading [//], with the checks on
    the netloc: the two on brackets that follow it, and [_checknetloc],
    which urlsplit calls last and which returns at once for an empty or
    ASCII netloc. *)
Definition split_netloc `{Libs} (url : str) : option (str * str) :=
  if startswith (lit "//") url then
    let nl := take_until is_delim (drop 2 url) in
    let rest := drop_until is_delim (drop 2 url) in
    if xorb (contains "[" nl) (contains "]" nl) then None
    else if contains "[" nl && contains "]" nl && negb (bracketed_netloc_ok nl)
    then None
    else if negb (forallb is_ascii nl) && negb (nfkc_netloc_ok nl) then None
    else Some (nl, rest)
  else Some ([], url).

Definition urlsplit `{Libs} (url : str) : option ParseResult :=
  let url := lstrip is_c0_or_space url in
  let url := filter (fun c => negb (is_unsafe c)) url in
  let '(sch, url) := split_scheme url in
  match split_netloc url with
  | None => None
  | Some (nl, url) =>
      let frag := after "#" url in
      let url := before "#" url in
      let qry := after "?" url in
      let url := before "?" url in
      Some (mkParse sch nl url [] qry frag)
  end.

(** [s[s.rfind(c):]], all of [s] when [c] is absent. *)
Fixpoint from_last (c : char) (s : str) : str :=
  match s with
  | [] => []
  | a :: t => if contains c t then from_last c t else s
  end.

(** [s[:s.rfind(c)]], empty when [c] is absent. *)
Fixpoint upto_last (c : char) (s : str) : str :=
  match s with
  | [] => []
  | a :: t => if contains c t then a :: upto_last c t else []
  end.

(** [_splitparams]: the parameters are those of the last path segment. *)
Definition splitparams (url : str) : str * str :=
  let seg := from_last "/" url in
  if contains ";" seg
  then (upto_last "/" url ++ before ";" seg, after ";" seg)
  else (url, []).

Definition urlparse `{Libs} (url : str) : option ParseResult :=
  match urlsplit url with
  | None => None
  | Some r =>
      if bool_decide (scheme r ∈ uses_params) && contains ";" (path r)
      then let '(p, ps) := splitparams (path r) in
           Some (mkParse (scheme r) (netloc r) p ps (query r) (fragment r))
      else Some r
  end.

End UrlLib.

Import UrlLib.

(** ** normalize_url *)

(** The f-string of the first statement. *)
Definition locator (p : ParseResult) : str :=
  scheme p ++ lit "://" ++ netloc p ++ path p.

Definition normalize_url `{Libs} (self : DocumentationScraper) (url : str)
  : option str :=
  match urlparse url with
  | None => None
  | Some parsed =>
      let normalized := rstrip is_slash (locator parsed) in
      Some (match query parsed with
            | [] => normalized
            | _ :: _ => normalized ++ lit "?" ++ query parsed
            end)
  end.

Import Html.

(** [extract_links].  An exception of urljoin or urlparse leaves the loop
    and the method: the result is [None]. *)
Fixpoint collect_links `{Libs} (self : DocumentationScraper)
    (current_url : str) (hrefs : list str) (links : gset str)
  : option (gset str) :=
  match hrefs with
  | [] => Some links
  | href :: rest =>
      absolute_url ← urljoin current_url href;
      normalized ← normalize_url self absolute_url;
      collect_links self current_url rest
        (if is_valid_url self (Some normalized)
         then links ∪ {[ normalized ]} else links)
  end.

Definition is_anchor (n : node) : bool :=
  is_tag (lit "a") n && bool_decide (is_Some (get (lit "href") n)).

Definition extract_links `{Libs} (self : DocumentationScraper)
    (soup : node) (current_url : str) : option (gset str) :=
  collect_links self current_url
    (omap (get (lit "href")) (find_all is_anchor soup)) ∅.

(** ** extract_title *)

Definition is_og_title (n : node) : bool :=
  is_tag (lit "meta") n && has_attr (lit "property") (lit "og:title") n.

Definition extract_title (self : DocumentationScraper) (soup : node) : str :=
  let title : option str :=
    match find (is_tag (lit "h1")) soup with
    | Some h1 => Some (get_text_strip h1)
    | None => None
    end in
  let title :=
    match title with
    | Some (_ :: _) => title
    | _ =>
        match find (is_tag (lit "title")) soup with
        | Some title_tag => Some (get_text_strip title_tag)
        | None => title
        end
    end in
  let title :=
    match title with
    | Some (_ :: _) => title
    | _ =>
        match find is_og_title soup with
        | Some meta_title =>
            Some (strip is_space (default [] (get (lit "content") meta_title)))
        | None => title
        end
    end in
  match title with
  | Some (c :: t) => c :: t
  | _ => lit "Untitled"
  end.

(** ** extract_content *)

Definition content_selectors : list selector :=
  [ ByTag (lit "main"); ByTag (lit "article"); ByAttr (lit "role") (lit "main");
    ByClass (lit "content"); ByClass (lit "main-content");
    ByClass (lit "documentation-content"); ById (lit "content");
    ByClass (lit "post-content"); ByClass (lit "entry-content") ].

Definition non_content : list str :=
  map lit ["nav"; "header"; "footer"; "script"; "style"]%string.

(** The loop over the selectors: the last [select_one] result, the loop
    left at the first hit. *)
Fixpoint first_selected (sels : list selector) (soup : node) : option node :=
  match sels with
  | [] => None
  | sel :: rest =>
      match select_one sel soup with
      | Some c => Some c
      | None => first_selected rest soup
      end
  end.

(** [extract_content] returns the content and, because [decompose] works
    in place, the soup as the caller sees it afterwards. *)
Definition extract_content (self : DocumentationScraper) (soup : node)
  : node * node :=
  match first_selected content_selectors soup with
  | Some content => (content, soup)
  | None =>
      match find (is_tag (lit "body")) soup with
      | Some body =>
          (decompose_all non_content body,
           default soup
             (rewrite_first (lit "body") (decompose_all non_content) soup))
      | None => (soup, soup)
      end
  end.

(** ** html_to_mdx *)

Definition nl : char := "010".
Definition dq : char := "034".

Definition frontmatter (title url : str) : str :=
  lit "---" ++ [nl] ++
  lit "title: " ++ [dq] ++ title ++ [dq; nl] ++
  lit "url: " ++ [dq] ++ url ++ [dq; nl] ++
  lit "---" ++ [nl] ++
  [nl].

Definition html_to_mdx `{Libs} (self : DocumentationScraper)
    (html_content : node) (title url : str) : str :=
  let h := {| ignore_links := false; body_width := 0 |} in
  let markdown := handle h (tag_to_str html_content) in
  let markdown := strip is_space markdown in
  frontmatter title url ++ markdown.

(** ** scrape_page and run *)

Record PageResult := mkResult {
  result_url : str;
  result_title : str;
  result_filename : str;
  result_links_found : nat
}.

(** What becomes of the output file.  [open] and [write] go through; or
    nothing is opened, because an exception is raised on the way to the
    file or by [open] itself; or [open(filepath, 'w')] has created or
    emptied the file when writing or closing raises, and [left] is what
    the file holds afterwards (nothing when the text cannot be encoded). *)
Inductive written :=
| Saved
| NotOpened
| Broken (left : str).

(** What the world answers while one page is scraped: the request fails
    (a [RequestException] of [get] or of [raise_for_status]), or it
    delivers a page that parses to [soup], and [saved] tells what becomes
    of the output file. *)
Inductive response :=
| RequestFailed
| Fetched (soup : node) (saved : written).

Definition add_visited (url : str) (self : DocumentationScraper)
  : DocumentationScraper :=
  {| base_url := base_url self;
     output_dir := output_dir self;
     visited_urls := visited_urls self ∪ {[ url ]};
     urls_to_visit := urls_to_visit self;
     scraped_count := scraped_count self |}.

Definition count_scraped (self : DocumentationScraper) : DocumentationScraper :=
  {| base_url := base_url self;
     output_dir := output_dir self;
     visited_urls := visited_urls self;
     urls_to_visit := urls_to_visit self;
     scraped_count := S (scraped_count self) |}.

Definition update_to_visit (new_links : gset str) (self : DocumentationScraper)
  : DocumentationScraper :=
  {| base_url := base_url self;
     output_dir := output_dir self;
     visited_urls := visited_urls self;
     urls_to_visit := urls_to_visit self ∪ new_links;
     scraped_count := scraped_count self |}.

(** [self.urls_to_visit.pop()] when the element taken is [url]. *)
Definition pop (url : str) (self : DocumentationScraper) : DocumentationScraper :=
  {| base_url := base_url self;
     output_dir := output_dir self;
     visited_urls := visited_urls self;
     urls_to_visit := urls_to_visit self ∖ {[ url ]};
     scraped_count := scraped_count self |}.

(** The [try] block of [scrape_page]; both handlers return [None] and
    keep what was done before the exception.  The disk maps the file
    names of the output directory to their contents. *)
Definition try_page `{Libs} (self : DocumentationScraper)
    (disk : gmap str str) (url : str) (resp : response)
  : DocumentationScraper * gmap str str * option PageResult :=
  match resp with
  | RequestFailed => (self, disk, None)
  | Fetched soup saved =>
      let title := extract_title self soup in
      let '(content, soup) := extract_content self soup in
      let mdx_content := html_to_mdx self content title url in
      let filename := url_to_filename self url in
      match saved with
      | Saved =>
          let disk := <[ filename := mdx_content ]> disk in
          let self := count_scraped self in
          match extract_links self soup url with
          | Some links =>
              let new_links := links ∖ visited_urls self in
              (update_to_visit new_links self, disk,
               Some (mkResult url title filename (size links)))
          | None => (self, disk, None)
          end
      | NotOpened => (self, disk, None)
      | Broken rest => (self, <[ filename := rest ]> disk, None)
      end
  end.

Definition scrape_page `{Libs} (self : DocumentationScraper)
    (disk : gmap str str) (url : str) (resp : response)
  : DocumentationScraper * gmap str str * option PageResult :=
  if bool_decide (url ∈ visited_urls self) then (self, disk, None)
  else try_page (add_visited url self) disk url resp.

(** The state of [run]: the scraper, the local [results] and the disk. *)
Record crawl := mkCrawl {
  scraper : DocumentationScraper;
  results : list PageResult;
  disk : gmap str str
}.

Definition start (base output : str) : crawl :=
  {| scraper := init base output; results := []; disk := ∅ |}.

(** One turn of the [while] loop, [url] being the element popped. *)
Definition iteration `{Libs} (st : crawl) (url : str) (resp : response) : crawl :=
  let '(self, disk, result) :=
    scrape_page (pop url (scraper st)) (disk st) url resp in
  {| scraper := self;
     results := match result with
                | Some r => results st ++ [r]
                | None => results st
                end;
     disk := disk |}.

(** The loop as a labelled transition system: [set.pop] may take any
    element, and the world may answer anything. *)
Inductive step `{Libs} : crawl -> str * response -> crawl -> Prop :=
| step_pop st url resp :
    url ∈ urls_to_visit (scraper st) ->
    step st (url, resp) (iteration st url resp).

Inductive steps `{Libs} : crawl -> list (str * response) -> crawl -> Prop :=
| steps_nil st : steps st [] st
| steps_cons st l st' ls st'' :
    step st l st' -> steps st' ls st'' -> steps st (l :: ls) st''.

(** [run] for a given choice of [pop] and a given site; [None] when the
    fuel does not suffice to empty the frontier. *)
Fixpoint run `{Libs} (fuel : nat) (choose : gset str -> option str)
    (site : str -> response) (st : crawl) : option crawl :=
  match choose (urls_to_visit (scraper st)) with
  | None => Some st
  | Some url =>
      match fuel with
      | O => None
      | S fuel' => run fuel' choose site (iteration st url (site url))
      end
  end.

(** A [pop] that can be run: the first element of the listing. *)
Definition first_element (s : gset str) : option str := head (elements s).

(** The links a page would add to the frontier. *)
Definition discovered `{Libs} (self : DocumentationScraper) (url : str)
    (resp : response) : gset str :=
  match resp with
  | RequestFailed => ∅
  | Fetched soup _ =>
      default ∅ (extract_links self (snd (extract_content self soup)) url)
  end.

(** ** Instances to run the model on *)

(** The alphanumeric characters beyond ASCII in Unicode 14.0.0, the
    database of CPython 3.11, as ranges of code points. *)
Definition alnum_ranges : list (N * N) :=
  [ (170, 170); (178, 179); (181, 181); (185, 186); (188, 190); (192, 214);
    (216, 246); (248, 705); (710, 721); (736, 740); (748, 748); (750, 750);
    (880, 884); (886, 887); (890, 893); (895, 895); (902, 902); (904, 906);
    (908, 908); (910, 929); (931, 1013); (1015, 1153); (1162, 1327);
    (1329, 1366); (1369, 1369); (1376, 1416); (1488, 1514); (1519, 1522);
    (1568, 1610); (1632, 1641); (1646, 1647); (1649, 1747); (1749, 1749);
    (1765, 1766); (1774, 1788); (1791, 1791); (1808, 1808); (1810, 1839);
    (1869, 1957); (1969, 1969); (1984, 2026); (2036, 2037); (2042, 2042);
    (2048, 2069); (2074, 2074); (2084, 2084); (2088, 2088); (2112, 2136);
    (2144, 2154); (2160, 2183); (2185, 2190); (2208, 2249); (2308, 2361);
    (2365, 2365); (2384, 2384); (2392, 2401); (2406, 2415); (2417, 2432);
    (2437, 2444); (2447, 2448); (2451, 2472); (2474, 2480); (2482, 2482);
    (2486, 2489); (2493, 2493); (2510, 2510); (2524, 2525); (2527, 2529);
    (2534, 2545); (2548, 2553); (2556, 2556); (2565, 2570); (2575, 2576);
    (2579, 2600); (2602, 2608); (2610, 2611); (2613, 2614); (2616, 2617);
    (2649, 2652); (2654, 2654); (2662, 2671); (2674, 2676); (2693, 2701);
    (2703, 2705); (2707, 2728); (2730, 2736); (2738, 2739); (2741, 2745);
    (2749, 2749); (2768, 2768); (2784, 2785); (2790, 2799); (2809, 2809);
    (2821, 2828); (2831, 2832); (2835, 2856); (2858, 2864); (2866, 2867);
    (2869, 2873); (2877, 2877); (2908, 2909); (2911, 2913); (2918, 2927);
    (2929, 2935); (2947, 2947); (2949, 2954); (2958, 2960); (2962, 2965);
    (2969, 2970); (2972, 2972); (2974, 2975); (2979, 2980); (2984, 2986);
    (2990, 3001); (3024, 3024); (3046, 3058); (3077, 3084); (3086, 3088);
    (3090, 3112); (3114, 3129); (3133, 3133); (3160, 3162); (3165, 3165);
    (3168, 3169); (3174, 3183); (3192, 3198); (3200, 3200); (3205, 3212);
    (3214, 3216); (3218, 3240); (3242, 3251); (3253, 3257); (3261, 3261);
    (3293, 3294); (3296, 3297); (3302, 3311); (3313, 3314); (3332, 3340);
    (3342, 3344); (3346, 3386); (3389, 3389); (3406, 3406); (3412, 3414);
    (3416, 3425); (3430, 3448); (3450, 3455); (3461, 3478); (3482, 3505);
    (3507, 3515); (3517, 3517); (3520, 3526); (3558, 3567); (3585, 3632);
    (3634, 3635); (3648, 3654); (3664, 3673); (3713, 3714); (3716, 3716);
    (3718, 3722); (3724, 3747); (3749, 3749); (3751, 3760); (3762, 3763);
    (3773, 3773); (3776, 3780); (3782, 3782); (3792, 3801); (3804, 3807);
    (3840, 3840); (3872, 3891); (3904, 3911); (3913, 3948); (3976, 3980);
    (4096, 4138); (4159, 4169); (4176, 4181); (4186, 4189); (4193, 4193);
    (4197, 4198); (4206, 4208); (4213, 4225); (4238, 4238); (4240, 4249);
    (4256, 4293); (4295, 4295); (4301, 4301); (4304, 4346); (4348, 4680);
    (4682, 4685); (4688, 4694); (4696, 4696); (4698, 4701); (4704, 4744);
    (4746, 4749); (4752, 4784); (4786, 4789); (4792, 4798); (4800, 4800);
    (4802, 4805); (4808, 4822); (4824, 4880); (4882, 4885); (4888, 4954);
    (4969, 4988); (4992, 5007); (5024, 5109); (5112, 5117); (5121, 5740);
    (5743, 5759); (5761, 5786); (5792, 5866); (5870, 5880); (5888, 5905);
    (5919, 5937); (5952, 5969); (5984, 5996); (5998, 6000); (6016, 6067);
    (6103, 6103); (6108, 6108); (6112, 6121); (6128, 6137); (6160, 6169);
    (6176, 6264); (6272, 6276); (6279, 6312); (6314, 6314); (6320, 6389);
    (6400, 6430); (6470, 6509); (6512, 6516); (6528, 6571); (6576, 6601);
    (6608, 6618); (6656, 6678); (6688, 6740); (6784, 6793); (6800, 6809);
    (6823, 6823); (6917, 6963); (6981, 6988); (6992, 7001); (7043, 7072);
    (7086, 7141); (7168, 7203); (7232, 7241); (7245, 7293); (7296, 7304);
    (7312, 7354); (7357, 7359); (7401, 7404); (7406, 7411); (7413, 7414);
    (7418, 7418); (7424, 7615); (7680, 7957); (7960, 7965); (7968, 8005);
    (8008, 8013); (8016, 8023); (8025, 8025); (8027, 8027); (8029, 8029);
    (8031, 8061); (8064, 8116); (8118, 8124); (8126, 8126); (8130, 8132);
    (8134, 8140); (8144, 8147); (8150, 8155); (8160, 8172); (8178, 8180);
    (8182, 8188); (8304, 8305); (8308, 8313); (8319, 8329); (8336, 8348);
    (8450, 8450); (8455, 8455); (8458, 8467); (8469, 8469); (8473, 8477);
    (8484, 8484); (8486, 8486); (8488, 8488); (8490, 8493); (8495, 8505);
    (8508, 8511); (8517, 8521); (8526, 8526); (8528, 8585); (9312, 9371);
    (9450, 9471); (10102, 10131); (11264, 11492); (11499, 11502);
    (11506, 11507); (11517, 11517); (11520, 11557); (11559, 11559);
    (11565, 11565); (11568, 11623); (11631, 11631); (11648, 11670);
    (11680, 11686); (11688, 11694); (11696, 11702); (11704, 11710);
    (11712, 11718); (11720, 11726); (11728, 11734); (11736, 11742);
    (11823, 11823); (12293, 12295); (12321, 12329); (12337, 12341);
    (12344, 12348); (12353, 12438); (12445, 12447); (12449, 12538);
    (12540, 12543); (12549, 12591); (12593, 12686); (12690, 12693);
    (12704, 12735); (12784, 12799); (12832, 12841); (12872, 12879);
    (12881, 12895); (12928, 12937); (12977, 12991); (13312, 19903);
    (19968, 42124); (42192, 42237); (42240, 42508); (42512, 42539);
    (42560, 42606); (42623, 42653); (42656, 42735); (42775, 42783);
    (42786, 42888); (42891, 42954); (42960, 42961); (42963, 42963);
    (42965, 42969); (42994, 43009); (43011, 43013); (43015, 43018);
    (43020, 43042); (43056, 43061); (43072, 43123); (43138, 43187);
    (43216, 43225); (43250, 43255); (43259, 43259); (43261, 43262);
    (43264, 43301); (43312, 43334); (43360, 43388); (43396, 43442);
    (43471, 43481); (43488, 43492); (43494, 43518); (43520, 43560);
    (43584, 43586); (43588, 43595); (43600, 43609); (43616, 43638);
    (43642, 43642); (43646, 43695); (43697, 43697); (43701, 43702);
    (43705, 43709); (43712, 43712); (43714, 43714); (43739, 43741);
    (43744, 43754); (43762, 43764); (43777, 43782); (43785, 43790);
    (43793, 43798); (43808, 43814); (43816, 43822); (43824, 43866);
    (43868, 43881); (43888, 44002); (44016, 44025); (44032, 55203);
    (55216, 55238); (55243, 55291); (63744, 64109); (64112, 64217);
    (64256, 64262); (64275, 64279); (64285, 64285); (64287, 64296);
    (64298, 64310); (64312, 64316); (64318, 64318); (64320, 64321);
    (64323, 64324); (64326, 64433); (64467, 64829); (64848, 64911);
    (64914, 64967); (65008, 65019); (65136, 65140); (65142, 65276);
    (65296, 65305); (65313, 65338); (65345, 65370); (65382, 65470);
    (65474, 65479); (65482, 65487); (65490, 65495); (65498, 65500);
    (65536, 65547); (65549, 65574); (65576, 65594); (65596, 65597);
    (65599, 65613); (65616, 65629); (65664, 65786); (65799, 65843);
    (65856, 65912); (65930, 65931); (66176, 66204); (66208, 66256);
    (66273, 66299); (66304, 66339); (66349, 66378); (66384, 66421);
    (66432, 66461); (66464, 66499); (66504, 66511); (66513, 66517);
    (66560, 66717); (66720, 66729); (66736, 66771); (66776, 66811);
    (66816, 66855); (66864, 66915); (66928, 66938); (66940, 66954);
    (66956, 66962); (66964, 66965); (66967, 66977); (66979, 66993);
    (66995, 67001); (67003, 67004); (67072, 67382); (67392, 67413);
    (67424, 67431); (67456, 67461); (67463, 67504); (67506, 67514);
    (67584, 67589); (67592, 67592); (67594, 67637); (67639, 67640);
    (67644, 67644); (67647, 67669); (67672, 67702); (67705, 67742);
    (67751, 67759); (67808, 67826); (67828, 67829); (67835, 67867);
    (67872, 67897); (67968, 68023); (68028, 68047); (68050, 68096);
    (68112, 68115); (68117, 68119); (68121, 68149); (68160, 68168);
    (68192, 68222); (68224, 68255); (68288, 68295); (68297, 68324);
    (68331, 68335); (68352, 68405); (68416, 68437); (68440, 68466);
    (68472, 68497); (68521, 68527); (68608, 68680); (68736, 68786);
    (68800, 68850); (68858, 68899); (68912, 68921); (69216, 69246);
    (69248, 69289); (69296, 69297); (69376, 69415); (69424, 69445);
    (69457, 69460); (69488, 69505); (69552, 69579); (69600, 69622);
    (69635, 69687); (69714, 69743); (69745, 69746); (69749, 69749);
    (69763, 69807); (69840, 69864); (69872, 69881); (69891, 69926);
    (69942, 69951); (69956, 69956); (69959, 69959); (69968, 70002);
    (70006, 70006); (70019, 70066); (70081, 70084); (70096, 70106);
    (70108, 70108); (70113, 70132); (70144, 70161); (70163, 70187);
    (70272, 70278); (70280, 70280); (70282, 70285); (70287, 70301);
    (70303, 70312); (70320, 70366); (70384, 70393); (70405, 70412);
    (70415, 70416); (70419, 70440); (70442, 70448); (70450, 70451);
    (70453, 70457); (70461, 70461); (70480, 70480); (70493, 70497);
    (70656, 70708); (70727, 70730); (70736, 70745); (70751, 70753);
    (70784, 70831); (70852, 70853); (70855, 70855); (70864, 70873);
    (71040, 71086); (71128, 71131); (71168, 71215); (71236, 71236);
    (71248, 71257); (71296, 71338); (71352, 71352); (71360, 71369);
    (71424, 71450); (71472, 71483); (71488, 71494); (71680, 71723);
    (71840, 71922); (71935, 71942); (71945, 71945); (71948, 71955);
    (71957, 71958); (71960, 71983); (71999, 71999); (72001, 72001);
    (72016, 72025); (72096, 72103); (72106, 72144); (72161, 72161);
    (72163, 72163); (72192, 72192); (72203, 72242); (72250, 72250);
    (72272, 72272); (72284, 72329); (72349, 72349); (72368, 72440);
    (72704, 72712); (72714, 72750); (72768, 72768); (72784, 72812);
    (72818, 72847); (72960, 72966); (72968, 72969); (72971, 73008);
    (73030, 73030); (73040, 73049); (73056, 73061); (73063, 73064);
    (73066, 73097); (73112, 73112); (73120, 73129); (73440, 73458);
    (73648, 73648); (73664, 73684); (73728, 74649); (74752, 74862);
    (74880, 75075); (77712, 77808); (77824, 78894); (82944, 83526);
    (92160, 92728); (92736, 92766); (92768, 92777); (92784, 92862);
    (92864, 92873); (92880, 92909); (92928, 92975); (92992, 92995);
    (93008, 93017); (93019, 93025); (93027, 93047); (93053, 93071);
    (93760, 93846); (93952, 94026); (94032, 94032); (94099, 94111);
    (94176, 94177); (94179, 94179); (94208, 100343); (100352, 101589);
    (101632, 101640); (110576, 110579); (110581, 110587); (110589, 110590);
    (110592, 110882); (110928, 110930); (110948, 110951); (110960, 111355);
    (113664, 113770); (113776, 113788); (113792, 113800); (113808, 113817);
    (119520, 119539); (119648, 119672); (119808, 119892); (119894, 119964);
    (119966, 119967); (119970, 119970); (119973, 119974); (119977, 119980);
    (119982, 119993); (119995, 119995); (119997, 120003); (120005, 120069);
    (120071, 120074); (120077, 120084); (120086, 120092); (120094, 120121);
    (120123, 120126); (120128, 120132); (120134, 120134); (120138, 120144);
    (120146, 120485); (120488, 120512); (120514, 120538); (120540, 120570);
    (120572, 120596); (120598, 120628); (120630, 120654); (120656, 120686);
    (120688, 120712); (120714, 120744); (120746, 120770); (120772, 120779);
    (120782, 120831); (122624, 122654); (123136, 123180); (123191, 123197);
    (123200, 123209); (123214, 123214); (123536, 123565); (123584, 123627);
    (123632, 123641); (124896, 124902); (124904, 124907); (124909, 124910);
    (124912, 124926); (124928, 125124); (125127, 125135); (125184, 125251);
    (125259, 125259); (125264, 125273); (126065, 126123); (126125, 126127);
    (126129, 126132); (126209, 126253); (126255, 126269); (126464, 126467);
    (126469, 126495); (126497, 126498); (126500, 126500); (126503, 126503);
    (126505, 126514); (126516, 126519); (126521, 126521); (126523, 126523);
    (126530, 126530); (126535, 126535); (126537, 126537); (126539, 126539);
    (126541, 126543); (126545, 126546); (126548, 126548); (126551, 126551);
    (126553, 126553); (126555, 126555); (126557, 126557); (126559, 126559);
    (126561, 126562); (126564, 126564); (126567, 126570); (126572, 126578);
    (126580, 126583); (126585, 126588); (126590, 126590); (126592, 126601);
    (126603, 126619); (126625, 126627); (126629, 126633); (126635, 126651);
    (127232, 127244); (130032, 130041); (131072, 173791); (173824, 177976);
    (177984, 178205); (178208, 183969); (183984, 191456); (194560, 195101);
    (196608, 201546)
  ]%N.

Definition in_ranges (ranges : list (N * N)) (c : char) : bool :=
  existsb (fun r => (r.1 <=? code c)%N && (code c <=? r.2)%N) ranges.

(** The characters whose NFKC form holds one of [/?#@:], in the same
    database: [_checknetloc] raises exactly when the host holds one. *)
Definition nfkc_unsafe : list N :=
  [8263; 8264; 8265; 8448; 8449; 8453; 8454; 10868; 65043; 65046; 65109; 65110; 65119; 65131; 65283; 65295; 65306; 65311; 65312]%N.

(** A line broken after every [w] characters. *)
Fixpoint hard_wrap_go (w col : nat) (s : str) : str :=
  match s with
  | [] => []
  | c :: t =>
      if eqc c "010" then c :: hard_wrap_go w 0 t
      else if (w <=? col)%nat then "010" :: c :: hard_wrap_go w 1 t
      else c :: hard_wrap_go w (S col) t
  end.

(** urljoin on the references the examples use: absolute URLs without
    dot segments come back unchanged.  The page is rendered as its
    text. *)
Definition plain_libs : Libs :=
  {| unicode_alnum := in_ranges alnum_ranges;
     bracketed_netloc_ok := fun _ => true;
     nfkc_netloc_ok :=
       fun nl => forallb (fun c => negb (bool_decide (code c ∈ nfkc_unsafe))) nl;
     urljoin := fun _ url => Some url;
     tag_to_str := fun n => get_text_strip n;
     render := fun _ s => s;
     wrap := fun w s => hard_wrap_go w 0 s |}.

Definition link (href : string) : node :=
  Tag (lit "a") [(lit "href", lit href)] [Text (lit href)].

Definition page (title : string) (hrefs : list string) : node :=
  soup_of [Tag (lit "html") []
     [Tag (lit "head") [] [Tag (lit "title") [] [Text (lit title)]];
      Tag (lit "body") [] (map link hrefs)]].

(** Three pages that link to each other, and one link out of scope. *)
Definition three_pages (url : str) : response :=
  if bool_decide (url = lit "https://x.com/docs") then
    Fetched (page "A" ["https://x.com/docs/b"; "https://x.com/docs/c/";
                       "https://x.com/other"]%string) Saved
  else if bool_decide (url = lit "https://x.com/docs/b") then
    Fetched (page "B" ["https://x.com/docs/c#top"; "https://x.com/docs"]%string) Saved
  else if bool_decide (url = lit "https://x.com/docs/c") then
    RequestFailed
  else RequestFailed.

Definition docs_home : str := lit "https://x.com/docs".

(** Two turns of the loop on that site: the start page, then a page whose
    request fails. *)
Definition two_labels : list (str * response) :=
  [ (docs_home, three_pages docs_home);
    (lit "https://x.com/docs/c", RequestFailed) ].

Definition after_one : crawl :=
  @iteration plain_libs (start docs_home (lit "docs"))
    docs_home (three_pages docs_home).

Definition after_two : crawl :=
  @iteration plain_libs after_one (lit "https://x.com/docs/c") RequestFailed.

(** A heading made of two strings, and a page whose heading holds
    white space only. *)
Definition nested_heading : node :=
  soup_of [Tag (lit "h1") []
             [Text (lit "Getting "); Tag (lit "em") [] [Text (lit "Started")]]].

Definition blank_heading : node :=
  soup_of [Tag (lit "html") []
     [Tag (lit "head") []
        [Tag (lit "title") [] [Text (lit " Docs ")];
         Tag (lit "meta") [(lit "property", lit "og:title");
                           (lit "content", lit "Preview")] []];
      Tag (lit "body") []
        [Tag (lit "h1") [] [Text [Char 0xa0; " "]; Comment (lit "x")]]]].

(** A content subtree. *)
Definition sample_content : node :=
  Tag (lit "article") [] [Text (lit "  Hello"); Tag (lit "b") [] [Text (lit "world ")]].



(** A page that links to a URL with path parameters. *)
Definition params_page : response :=
  Fetched (page "A" ["https://x.com/docs/a;x/"]%string) Saved.

Definition three_urls : gset str :=
  {[ docs_home; lit "https://x.com/docs/b"; lit "https://x.com/docs/c" ]}.

(** ** The Filename Mapper in the words of the specification *)





(** ** The URL Normalizer in the words of the specification *)

(** Exactly one trailing slash is taken off. *)
Definition strip_one_slash (p : str) : str :=
  if bool_decide (last p = Some "/") then take (length p - 1) p else p.

Definition url_normalizer_spec `{Libs} (url : str) : option str :=
  match urlparse url with
  | None => None
  | Some parsed =>
      Some (scheme parsed ++ lit "://" ++ netloc parsed
            ++ strip_one_slash (path parsed)
            ++ (if bool_decide (query parsed = []) then []
                else "?" :: query parsed))
  end.

(** A parse result with another fragment. *)
Definition with_fragment (frag : str) (r : ParseResult) : ParseResult :=
  mkParse (scheme r) (netloc r) (path r) (params r) (query r) frag.

(** ** Title Extraction in the words of the specification *)

(** The text of a node: its strings in document order, one after the
    other. *)
Fixpoint text_of (n : node) : str :=
  match n with
  | Text s => s
  | Comment _ => []
  | Tag _ _ cs =>
      (fix go (l : list node) : str :=
         match l with
         | [] => []
         | c :: t => text_of c ++ go t
         end) cs
  end.

(** The first node below [n], in document order, that satisfies [p]:
    a child, or what is first below it, before the children after it. *)
Fixpoint first_below (p : node -> bool) (n : node) : option node :=
  match n with
  | Tag _ _ cs =>
      (fix go (l : list node) : option node :=
         match l with
         | [] => None
         | c :: t =>
             if p c then Some c
             else match first_below p c with
                  | Some x => Some x
                  | None => go t
                  end
         end) cs
  | _ => None
  end.

(** The candidates as the specification has them, an absent element
    giving the empty text: the trimmed text of the first h1, the trimmed
    text of the first title, the trimmed content of the first og:title. *)
Definition stated_candidates (soup : node) : list str :=
  [ from_option (fun e => strip is_space (text_of e)) []
      (first_below (is_tag (lit "h1")) soup);
    from_option (fun e => strip is_space (text_of e)) []
      (first_below (is_tag (lit "title")) soup);
    from_option
      (fun meta => strip is_space (default [] (get (lit "content") meta)))
      [] (first_below is_og_title soup) ].

Fixpoint first_non_empty (candidates : list str) (placeholder : str) : str :=
  match candidates with
  | [] => placeholder
  | [] :: rest => first_non_empty rest placeholder
  | (c :: t) :: _ => c :: t
  end.

Definition title_extraction_stated (soup : node) : str :=
  first_non_empty (stated_candidates soup) (lit "Untitled").

(** The strings of a node, each trimmed on its own, one after the
    other. *)
Fixpoint trimmed_strings (n : node) : str :=
  match n with
  | Text s => strip is_space s
  | Comment _ => []
  | Tag _ _ cs =>
      (fix go (l : list node) : str :=
         match l with
         | [] => []
         | c :: t => trimmed_strings c ++ go t
         end) cs
  end.

(** The candidates as the code has them. *)
Definition title_candidates (soup : node) : list str :=
  [ from_option trimmed_strings [] (first_below (is_tag (lit "h1")) soup);
    from_option trimmed_strings [] (first_below (is_tag (lit "title")) soup);
    from_option
      (fun meta => strip is_space (default [] (get (lit "content") meta)))
      [] (first_below is_og_title soup) ].

(** The code points of white space. *)
Definition white_space : list N :=
  [ 0x9; 0xa; 0xb; 0xc; 0xd; 0x1c; 0x1d; 0x1e; 0x1f; 0x20; 0x85; 0xa0;
    0x1680; 0x2000; 0x2001; 0x2002; 0x2003; 0x2004; 0x2005; 0x2006;
    0x2007; 0x2008; 0x2009; 0x200a; 0x2028; 0x2029; 0x202f; 0x205f;
    0x3000 ]%N.

(** Neither the first nor the last character is white space. *)
Definition trimmed (s : str) : Prop := strip is_space s = s.

Definition no_space_at_ends (s : str) : Prop :=
  (forall c, head s = Some c -> code c ∉ white_space) /\
  (forall c, last s = Some c -> code c ∉ white_space).

(** ** The Markup Converter in the words of the specification *)

(** [s.split('\n')]: the lines of a text. *)
Fixpoint split_lines (s : str) : list str :=
  match s with
  | [] => [[]]
  | c :: t =>
      if eqc c "010" then [] :: split_lines t
      else match split_lines t with
           | [] => [[c]]
           | l :: ls => (c :: l) :: ls
           end
  end.

(** A value between double quotes. *)
Definition quoted (v : str) : str := "034" :: v ++ ["034"].

(** The lines of the header block and the blank line after it. *)
Definition header_lines (title url : str) : list str :=
  [ lit "---"; lit "title: " ++ quoted title; lit "url: " ++ quoted url;
    lit "---"; [] ].

(** The value of a header line [key: "value"]. *)
Definition read_field (key : str) (line : str) : option str :=
  let pre := key ++ lit ": " ++ ["034"] in
  if startswith pre line && endswith ["034"] (drop (length pre) line)
  then Some (take (length line - length pre - 1) (drop (length pre) line))
  else None.

(** ** Predicates on the states of the crawl *)

(** The text urlsplit works on, after the leading control characters
    and the tabs and line ends are gone. *)
Definition cleaned (url : str) : str :=
  filter (fun c => negb (is_unsafe c)) (lstrip is_c0_or_space url).

(** No URL is in the frontier and in Visited. *)
Definition disjoint_sets (st : crawl) : Prop :=
  urls_to_visit (scraper st) ## visited_urls (scraper st).

(** Every result belongs to a URL that has been marked as visited. *)
Definition results_visited (st : crawl) : Prop :=
  forall r, r ∈ results st -> result_url r ∈ visited_urls (scraper st).

(** The state stays inside a finite set [V] of URLs. *)
Definition bounded_by (base : str) (V : gset str) (st : crawl) : Prop :=
  disjoint_sets st /\
  urls_to_visit (scraper st) ∪ visited_urls (scraper st) ⊆ V /\
  base_url (scraper st) = rstrip is_slash base.

(** Every URL of the two sets is the seed or came out of the normalizer
    and passed the scope filter. *)
Definition seed_or_link `{Libs} (base out : str) (st : crawl) : Prop :=
  base_url (scraper st) = rstrip is_slash base /\
  forall u,
    u ∈ urls_to_visit (scraper st) ∪ visited_urls (scraper st) ->
    u = base \/
    (is_valid_url (init base out) (Some u) = true /\
     exists x, normalize_url (init base out) x = Some u).

(** Neither end of [s] is a character of [p]. *)
Definition clean_ends (p : char -> bool) (s : str) : Prop :=
  (forall c, head s = Some c -> p c = false) /\
  (forall c, last s = Some c -> p c = false).

(** ** The rest of [run]: the summary file *)

(** [str(n)] for a count: the decimal digits. *)
Fixpoint digits (d : Decimal.uint) : str :=
  match d with
  | Decimal.Nil => []
  | Decimal.D0 d => "0" :: digits d
  | Decimal.D1 d => "1" :: digits d
  | Decimal.D2 d => "2" :: digits d
  | Decimal.D3 d => "3" :: digits d
  | Decimal.D4 d => "4" :: digits d
  | Decimal.D5 d => "5" :: digits d
  | Decimal.D6 d => "6" :: digits d
  | Decimal.D7 d => "7" :: digits d
  | Decimal.D8 d => "8" :: digits d
  | Decimal.D9 d => "9" :: digits d
  end.

Definition str_of_nat (n : nat) : str := digits (Nat.to_uint n).

Definition summary_name : str := lit "scraping_summary.txt".

(** The four lines and the blank line written for one result. *)
Definition result_lines (r : PageResult) : str :=
  lit "  - " ++ result_title r ++ [nl] ++
  lit "    URL: " ++ result_url r ++ [nl] ++
  lit "    File: " ++ result_filename r ++ [nl] ++
  lit "    Links found: " ++ str_of_nat (result_links_found r) ++ [nl; nl].

Definition summary_text (self : DocumentationScraper)
    (results : list PageResult) : str :=
  lit "Documentation Scraping Summary" ++ [nl] ++
  replicate 60 "=" ++ [nl; nl] ++
  lit "Base URL: " ++ base_url self ++ [nl] ++
  lit "Total pages scraped: " ++ str_of_nat (scraped_count self) ++ [nl] ++
  lit "Total pages analyzed: "
    ++ str_of_nat (size (visited_urls self)) ++ [nl; nl] ++
  lit "Pages:" ++ [nl] ++
  concat (map result_lines results).

(** What [run] does after the loop, the summary file being written into
    the output directory like the pages. *)
Definition write_summary (st : crawl) : crawl :=
  {| scraper := scraper st;
     results := results st;
     disk := <[ summary_name := summary_text (scraper st) (results st) ]>
               (disk st) |}.

(** ** What a turn of the loop contributes *)

(** The links that the turn with this answer puts before the frontier:
    those of [extract_links] when the page was saved and the extraction
    went through. *)
Definition added `{Libs} (self : DocumentationScraper)
    (l : str * response) : gset str :=
  match l.2 with
  | Fetched soup Saved =>
      default ∅ (extract_links self (extract_content self soup).2 l.1)
  | _ => ∅
  end.

(** The turn writes a file. *)
Definition saves (l : str * response) : bool :=
  match l.2 with
  | Fetched _ Saved => true
  | _ => false
  end.

(** The turn returns a result. *)
Definition completes `{Libs} (self : DocumentationScraper)
    (l : str * response) : bool :=
  match l.2 with
  | Fetched soup Saved =>
      bool_decide
        (is_Some (extract_links self (extract_content self soup).2 l.1))
  | _ => false
  end.

(** What the turn leaves in the file of its URL, when it touches the
    file: the document of the page, or the remains of a broken write. *)
Definition file_of `{Libs} (self : DocumentationScraper)
    (l : str * response) : option str :=
  match l.2 with
  | Fetched soup Saved =>
      Some (html_to_mdx self (extract_content self soup).1
              (extract_title self soup) l.1)
  | Fetched _ (Broken rest) => Some rest
  | _ => None
  end.

(** The disk after a turn that leaves [content] in the file [name]. *)
Definition put_file (name : str) (content : option str) (dsk : gmap str str)
  : gmap str str :=
  match content with
  | Some c => <[ name := c ]> dsk
  | None => dsk
  end.

(** The hrefs that [extract_links] goes through. *)
Definition hrefs_of (soup : node) : list str :=
  omap (get (lit "href")) (find_all is_anchor soup).

(** [rewrite_first] on the children of a tag. *)
Fixpoint rewrite_children (name : str) (f : node -> node) (cs : list node)
  : option (list node) :=
  match cs with
  | [] => None
  | c :: t =>
      if is_tag name c then Some (f c :: t)
      else match rewrite_first name f c with
           | Some c' => Some (c' :: t)
           | None => option_map (cons c) (rewrite_children name f t)
           end
  end.

(** The first node of some trees, in document order, that satisfies [p]. *)
Definition first_in (p : node -> bool) (cs : list node) : option node :=
  head (filter (fun n => p n = true) (flat_map subtree cs)).

(** What [rewrite_first] does, seen through [find]: the first tag of the
    name is replaced by its image, nothing else changes. *)
Definition rewritten_by (name : str) (f : node -> node) (n : node) : Prop :=
  match rewrite_first name f n with
  | Some n' =>
      (forall nm, is_tag nm n' = is_tag nm n) /\
      exists c, find (is_tag name) n = Some c /\
                find (is_tag name) n' = Some (f c) /\
                (f c = c -> n' = n)
  | None => find (is_tag name) n = None
  end.

(** What holds of the results gathered so far: one per URL, each for a
    visited URL, with the file name of that URL, a title, and its file
    on the disk. *)
Definition results_sound `{Libs} (base out : str) (st : crawl) : Prop :=
  NoDup (result_url <$> results st) /\
  forall r,
    r ∈ results st ->
    result_url r ∈ visited_urls (scraper st) /\
    result_filename r = url_to_filename (init base out) (result_url r) /\
    result_title r <> [] /\
    is_Some (disk st !! result_filename r).

(** What holds of the files written so far: each carries the file name
    of a visited URL. *)
Definition disk_sound `{Libs} (base out : str) (st : crawl) : Prop :=
  forall f c,
    disk st !! f = Some c ->
    exists u,
      u ∈ visited_urls (scraper st) /\
      f = url_to_filename (init base out) u.

Definition crawl_sound `{Libs} (base out : str) (st : crawl) : Prop :=
  base_url (scraper st) = rstrip is_slash base /\
  disjoint_sets st /\
  results_sound base out st /\
  disk_sound base out st.

(** One of the [names] is the name of [n]. *)
Definition named_in (names : list str) (n : node) : bool :=
  existsb (fun nm => is_tag nm n) names.

(** No two underscores in a row. *)
Fixpoint single_underscores (s : str) : Prop :=
  match s with
  | [] => True
  | c :: t => (is_us c && head_is is_us t = false) /\ single_underscores t
  end.

(** A goal of membership or inclusion between closed sets, decided by
    evaluation. *)
Ltac by_compute := apply (bool_decide_unpack _); vm_compute; exact I.

(** ** The model on sample inputs

    The values on the right are what Python's [str], [re] and
    [urllib.parse] give for these arguments. *)

Example replace_overlapping :
  remove_all (lit "aa") (lit "aaa") = lit "a" /\
  remove_all (lit "aba") (lit "abab") = lit "b" /\
  remove_all (lit "abc") (lit "xabcabcx") = lit "xx" /\
  remove_all [] (lit "abc") = lit "abc".
Proof. repeat split. Qed.

Example substitutions_sample `{Libs} :
  sub_underscores (sub_special (lit "a/_b//c?d e.f-g__h"))
  = lit "a_b_c_d_e.f-g_h".
Proof. reflexivity. Qed.

Example unicode_sample :
  @url_to_filename plain_libs (init (lit "https://x.com/docs") (lit "docs"))
    (lit "https://x.com/docs/café ½/日本語→x")
  = lit "café_½_日本語_x.mdx" /\
  strip is_space (Char 0xa0 :: Char 0x85 :: lit "a b" ++ [Char 0x3000])
  = lit "a b" /\
  @urlparse plain_libs (lit "https://é.com/ä?ö#ü")
  = Some (mkParse (lit "https") (lit "é.com") (lit "/ä") [] (lit "ö") (lit "ü")) /\
  @urlparse plain_libs (lit "https://a℀b.com/") = None.
Proof. repeat split. Qed.

Example strip_sample :
  strip is_slash (lit "//a/b//") = lit "a/b" /\
  strip is_slash (lit "?x=1/") = lit "?x=1" /\
  strip is_space (" " :: "028" :: lit " a " ++ ["031"]) = lit "a".
Proof. repeat split. Qed.

Example urlparse_samples `{Libs} :
  urlparse (lit "HTTPS://X.com/a?b#c")
  = Some (mkParse (lit "https") (lit "X.com") (lit "/a") [] (lit "b") (lit "c")) /\
  urlparse (lit "https://x.com/a;p/b;q")
  = Some (mkParse (lit "https") (lit "x.com") (lit "/a;p/b") (lit "q") [] []) /\
  urlparse (lit "svn://h/a;b")
  = Some (mkParse (lit "svn") (lit "h") (lit "/a;b") [] [] []) /\
  urlparse (lit "x.com/a;b?c")
  = Some (mkParse [] [] (lit "x.com/a") (lit "b") (lit "c") []) /\
  urlparse (lit "1a:b") = Some (mkParse [] [] (lit "1a:b") [] [] []) /\
  urlparse (lit "a+b.c-d:rest")
  = Some (mkParse (lit "a+b.c-d") [] (lit "rest") [] [] []) /\
  urlparse (lit "https://x.com/a?b?c#d#e")
  = Some (mkParse (lit "https") (lit "x.com") (lit "/a") [] (lit "b?c")
            (lit "d#e")) /\
  urlparse (" " :: "009" :: lit "https://x.com/a" ++ "010" :: lit "/b")
  = Some (mkParse (lit "https") (lit "x.com") (lit "/a/b") [] [] []) /\
  urlparse (lit "http://[::1") = None /\
  urlparse (lit "http://]x") = None.
Proof. repeat split. Qed.

Example normalize_url_samples `{Libs} (self : DocumentationScraper) :
  normalize_url self (lit "https://x.com/docs/a;x/")
  = Some (lit "https://x.com/docs/a;x") /\
  normalize_url self (lit "https://x.com/docs/a;x")
  = Some (lit "https://x.com/docs/a") /\
  normalize_url self (lit "://foo") = Some (lit "://://foo") /\
  normalize_url self (lit "https://") = Some (lit "https:") /\
  normalize_url self (lit "http:/x") = Some (lit "http:///x") /\
  normalize_url self (lit "//x.com/a") = Some (lit "://x.com/a") /\
  normalize_url self (lit "https://x.com/a//?q=1#top")
  = Some (lit "https://x.com/a?q=1") /\
  normalize_url self (lit "https://x.com/a?q=/")
  = Some (lit "https://x.com/a?q=/") /\
  normalize_url self (lit "https://x.com/a?") = Some (lit "https://x.com/a") /\
  normalize_url self (lit "https://x.com;p") = Some (lit "https://x.com;p").
Proof. repeat split. Qed.

(** ** Facts about the string methods *)

Section StringFacts.

Context `{Libs}.
Implicit Types (p : char -> bool) (s t k : str) (c : char).

Lemma eqc_true a b : eqc a b = true <-> a = b.
Proof.
  unfold eqc. rewrite N.eqb_eq. destruct a, b; cbn. split; congruence.
Qed.

Lemma eqc_refl a : eqc a a = true.
Proof. by apply eqc_true. Qed.

Lemma eqc_false a b : eqc a b = false <-> a <> b.
Proof.
  rewrite <- eqc_true. destruct (eqc a b); split; congruence.
Qed.

Lemma startswith_prefix pre s : startswith pre s = true <-> pre `prefix_of` s.
Proof.
  revert s. induction pre as [|a pre IH]; intros s; simpl.
  - split; [intros _; apply prefix_nil | done].
  - destruct s as [|b s].
    + split; [done | intros Hp; by apply prefix_nil_not in Hp].
    + rewrite andb_true_iff, eqc_true, IH. split.
      * intros [-> Hp]. by apply prefix_cons.
      * intros Hp. split; [by apply prefix_cons_inv_1 in Hp
                          | by apply prefix_cons_inv_2 in Hp].
Qed.

Lemma endswith_suffix suf s : endswith suf s = true <-> suf `suffix_of` s.
Proof.
  unfold endswith. rewrite startswith_prefix. symmetry.
  apply suffix_prefix_reverse.
Qed.

Lemma rstrip_all p k : Forall (fun c => p c = true) k -> rstrip p k = [].
Proof.
  induction 1 as [|c k Hc _ IH]; simpl; [done|]. by rewrite IH, Hc.
Qed.

(** [rstrip] cuts a block of [p]-characters off the end... *)
Lemma rstrip_app p s :
  exists k, s = rstrip p s ++ k /\ Forall (fun c => p c = true) k.
Proof.
  induction s as [|c s (k & Hs & Hk)]; simpl.
  - exists []. by split.
  - destruct (rstrip p s) as [|a r] eqn:E.
    + simpl in Hs. subst k. destruct (p c) eqn:Hc.
      * exists (c :: s). split; [done|]. by constructor.
      * exists s. by split.
    + exists k. split; [|done]. simpl. by rewrite Hs at 1.
Qed.

(** ... and what is left does not end in one. *)
Lemma rstrip_last p s c : last (rstrip p s) = Some c -> p c = false.
Proof.
  revert c. induction s as [|a s IH]; intros c; simpl; [done|].
  destruct (rstrip p s) as [|b r] eqn:E.
  - destruct (p a) eqn:Ha; simpl; [done|]. by intros [= <-].
  - intros Hl. apply IH. by rewrite last_cons_cons in Hl.
Qed.

(** These two properties determine the result. *)
Lemma rstrip_unique p body k :
  Forall (fun c => p c = true) k ->
  (forall c, last body = Some c -> p c = false) ->
  rstrip p (body ++ k) = body.
Proof.
  intros Hk. induction body as [|c body IH]; intros Hl; simpl.
  - by apply rstrip_all.
  - destruct body as [|b body].
    + simpl. rewrite (rstrip_all p k Hk). by rewrite (Hl c).
    + rewrite IH; [done|]. intros c' Hc'. apply Hl.
      by rewrite last_cons_cons.
Qed.

Lemma rstrip_idem p s : rstrip p (rstrip p s) = rstrip p s.
Proof.
  rewrite <- (app_nil_r (rstrip p s)) at 1.
  apply rstrip_unique; [constructor | apply rstrip_last].
Qed.

Lemma rstrip_cons_keep p c s :
  p c = false -> exists r, rstrip p (c :: s) = c :: r.
Proof.
  intros Hc. simpl. destruct (rstrip p s) as [|a r].
  - rewrite Hc. by exists [].
  - by exists (a :: r).
Qed.

Lemma rstrip_head p s c :
  p c = false -> head s = Some c -> head (rstrip p s) = Some c.
Proof.
  destruct s as [|a s]; [done|]. intros Hc [= ->].
  destruct (rstrip_cons_keep p c s Hc) as [r ->]. done.
Qed.

Lemma lstrip_head p s c : head (lstrip p s) = Some c -> p c = false.
Proof.
  induction s as [|a s IH]; simpl; [done|].
  destruct (p a) eqn:Ha; [done|]. simpl. by intros [= <-].
Qed.

Lemma lstrip_fix p s :
  (forall c, head s = Some c -> p c = false) -> lstrip p s = s.
Proof. destruct s as [|a s]; [done|]. intros Hh. simpl. by rewrite (Hh a). Qed.

Lemma strip_head p s c : head (strip p s) = Some c -> p c = false.
Proof.
  unfold strip. intros Hh.
  destruct (lstrip p s) as [|a r] eqn:E; [done|].
  assert (Ha : p a = false) by (apply (lstrip_head p s); by rewrite E).
  destruct (rstrip_cons_keep p a r Ha) as [r' Hr].
  rewrite Hr in Hh. simpl in Hh. congruence.
Qed.

Lemma strip_last p s c : last (strip p s) = Some c -> p c = false.
Proof. apply rstrip_last. Qed.

(** A string without [p] at either end is left alone. *)
Lemma strip_fix p s :
  (forall c, head s = Some c -> p c = false) ->
  (forall c, last s = Some c -> p c = false) ->
  strip p s = s.
Proof.
  intros Hh Hl. unfold strip. rewrite lstrip_fix by done.
  rewrite <- (app_nil_r s) at 1. by apply rstrip_unique.
Qed.

Lemma strip_idem p s : strip p (strip p s) = strip p s.
Proof. apply strip_fix; [apply strip_head | apply strip_last]. Qed.

(** [replace] with a non-empty [old]. *)
Lemma remove_go_skip old k s :
  remove_go old (length k) (k ++ s) = remove_go old 0 s.
Proof. induction k as [|c k IH]; simpl; [by destruct s | done]. Qed.

Lemma remove_all_occurrence old s :
  old <> [] -> remove_all old (old ++ s) = remove_all old s.
Proof.
  destruct old as [|c old]; [done|]. intros _. unfold remove_all.
  change ((c :: old) ++ s) with (c :: (old ++ s)).
  cbn [remove_go].
  assert (Hp : startswith (c :: old) (c :: old ++ s) = true)
    by (apply startswith_prefix; by exists s).
  rewrite Hp. cbn [length]. rewrite Nat.sub_1_r. cbn [Nat.pred].
  apply remove_go_skip.
Qed.

Lemma remove_all_other old c s :
  head old <> Some c -> remove_all old (c :: s) = c :: remove_all old s.
Proof.
  destruct old as [|a old]; [done|]. intros Hh. unfold remove_all.
  cbn [remove_go startswith].
  assert (eqc a c = false) as -> by (apply eqc_false; naive_solver).
  done.
Qed.




End StringFacts.

(** ** The Scope Filter *)

(** C5. The Scope Filter answers true exactly when its input is a
    non-empty string that, once its trailing slashes are taken off,
    starts with the base prefix as a literal string prefix; the null and
    the empty input are rejected; with base https://x.com/docs the URL
    https://x.com/docs/page1 is accepted and https://x.com/other is not. *)
Theorem scope_filter_literal_prefix :
  (forall (self : DocumentationScraper) (url : option str),
     is_valid_url self url = true <->
     exists body slashes,
       url = Some (body ++ slashes) /\ body ++ slashes <> [] /\
       Forall (fun c => c = "/") slashes /\ last body <> Some "/" /\
       base_url self `prefix_of` body) /\
  (forall self, is_valid_url self None = false /\
                is_valid_url self (Some []) = false) /\
  (forall out,
     is_valid_url (init (lit "https://x.com/docs") out)
       (Some (lit "https://x.com/docs/page1")) = true /\
     is_valid_url (init (lit "https://x.com/docs") out)
       (Some (lit "https://x.com/other")) = false).
Proof.
  split; [|split; [done | intros out; split; vm_compute; reflexivity]].
  intros self url. split.
  - destruct url as [[|c u]|]; simpl; [done| |done].
    intros Hp. apply startswith_prefix in Hp.
    destruct (rstrip_app is_slash (c :: u)) as (k & Hs & Hk).
    exists (rstrip is_slash (c :: u)), k. split; [by rewrite <- Hs|].
    split; [by rewrite <- Hs|]. split; [|split; [|done]].
    + eapply Forall_impl; [exact Hk|]. intros a Ha. by apply eqc_true in Ha.
    + intros Hl. apply rstrip_last in Hl. done.
  - intros (body & k & -> & Hne & Hk & Hl & Hp).
    assert (Hr : rstrip is_slash (body ++ k) = body).
    { apply rstrip_unique.
      - eapply Forall_impl; [exact Hk|]. intros a ->. apply eqc_refl.
      - intros c Hc. apply eqc_false. intros ->. done. }
    unfold is_valid_url. destruct (body ++ k) as [|c u] eqn:E; [done|].
    rewrite Hr. by apply startswith_prefix.
Qed.

(** ** The Filename Mapper *)




(** C10. A URL that is the base prefix followed by a question mark and a
    query is mapped to the bare extension .mdx and not to index.mdx: the
    remainder that meets the emptiness test still begins with the
    question mark.  The base prefix is taken not to begin with a question
    mark itself. *)
Theorem url_to_filename_query_only
    `{Libs} (self : DocumentationScraper) (query_string : str) :
  head (base_url self) <> Some "?" ->
  let url := base_url self ++ "?" :: query_string in
  (exists rest,
     strip is_slash (remove_all (base_url self) url) = "?" :: rest) /\
  url_to_filename self url = lit ".mdx" /\
  url_to_filename self url <> lit "index.mdx".
Proof.
  intros Hb url.
  assert (Hrm : exists r, remove_all (base_url self) url = "?" :: r).
  { subst url. destruct (base_url self) as [|b base] eqn:E.
    - by eexists.
    - rewrite remove_all_occurrence by done.
      rewrite remove_all_other by done. by eexists. }
  destruct Hrm as [r Hr].
  assert (Hst : exists rest,
             strip is_slash (remove_all (base_url self) url) = "?" :: rest).
  { rewrite Hr. unfold strip. cbn [lstrip]. change (is_slash "?") with false.
    cbv iota. by apply rstrip_cons_keep. }
  split; [exact Hst|]. destruct Hst as [rest Hrest].
  assert (Hf : url_to_filename self url = lit ".mdx").
  { unfold url_to_filename. rewrite Hrest. reflexivity. }
  split; [exact Hf|]. rewrite Hf. vm_compute. discriminate.
Qed.

Lemma url_to_filename_query_only_witness :
  let self := init (lit "https://x.com/docs") (lit "docs") in
  @url_to_filename plain_libs self (base_url self ++ "?" :: lit "x=1")
  = lit ".mdx".
Proof.
  intros self.
  apply (@url_to_filename_query_only plain_libs self (lit "x=1")).
  vm_compute. discriminate.
Defined.

(** ** urlparse and the URL Normalizer *)

Section UrlFacts.

Context `{Libs}.
Implicit Types (p : char -> bool) (s t u x : str) (c : char).

Lemma contains_elem c s : contains c s = true <-> c ∈ s.
Proof.
  unfold contains. induction s as [|a s IH]; simpl.
  - split; [done | intros Hin; inversion Hin].
  - rewrite orb_true_iff, eqc_true, IH, elem_of_cons. naive_solver.
Qed.

Lemma contains_not_elem c s : contains c s = false <-> c ∉ s.
Proof.
  rewrite <- contains_elem. destruct (contains c s); naive_solver.
Qed.

Lemma contains_app c s t : contains c (s ++ t) = contains c s || contains c t.
Proof. apply existsb_app. Qed.

(** Every piece that the parser cuts out consists of characters of the
    text it was cut from. *)
Lemma elem_of_before c s a : a ∈ before c s -> a ∈ s.
Proof.
  induction s as [|b s IH]; simpl; [done|].
  destruct (eqc b c); [intros Hin; inversion Hin|].
  rewrite !elem_of_cons. naive_solver.
Qed.

Lemma elem_of_after c s a : a ∈ after c s -> a ∈ s.
Proof.
  induction s as [|b s IH]; simpl; [done|].
  destruct (eqc b c); rewrite elem_of_cons; naive_solver.
Qed.

Lemma not_elem_of_before c s : c ∉ before c s.
Proof.
  induction s as [|b s IH]; simpl; [apply not_elem_of_nil|].
  destruct (eqc b c) eqn:E; [apply not_elem_of_nil|].
  apply eqc_false in E. rewrite elem_of_cons. naive_solver.
Qed.

Lemma elem_of_take_until p s a : a ∈ take_until p s -> p a = false.
Proof.
  induction s as [|b s IH]; simpl; [intros Hin; inversion Hin|].
  destruct (p b) eqn:E; [intros Hin; inversion Hin|].
  rewrite elem_of_cons. naive_solver.
Qed.

Lemma elem_of_drop_until p s a : a ∈ drop_until p s -> a ∈ s.
Proof.
  induction s as [|b s IH]; simpl; [done|].
  destruct (p b); [done|]. rewrite elem_of_cons. naive_solver.
Qed.

Lemma elem_of_upto_last c s a : a ∈ upto_last c s -> a ∈ s.
Proof.
  induction s as [|b s IH]; simpl; [done|].
  destruct (contains c s); [|intros Hin; inversion Hin].
  rewrite !elem_of_cons. naive_solver.
Qed.

Lemma elem_of_from_last c s a : a ∈ from_last c s -> a ∈ s.
Proof.
  induction s as [|b s IH]; simpl; [done|].
  destruct (contains c s); [|done]. rewrite elem_of_cons. naive_solver.
Qed.

Lemma elem_of_rstrip p s a : a ∈ rstrip p s -> a ∈ s.
Proof.
  destruct (rstrip_app p s) as (k & Hs & _). intros Hin.
  rewrite Hs. apply elem_of_app. by left.
Qed.

Lemma elem_of_splitparams s a :
  a ∈ (splitparams s).1 -> a ∈ s.
Proof.
  unfold splitparams. destruct (contains ";" (from_last "/" s)); [|done].
  simpl. rewrite elem_of_app. intros [Hin|Hin].
  - by apply elem_of_upto_last in Hin.
  - apply elem_of_before in Hin. by apply elem_of_from_last in Hin.
Qed.

Lemma lower_scheme_char c : is_scheme_char c = true -> lower_char c <> "#".
Proof.
  destruct c as [n].
  unfold lower_char, is_upper, between. cbn [code]. intros Hs.
  destruct ((65 <=? n)%N && (n <=? 90)%N) eqn:Eu.
  - apply andb_true_iff in Eu as [H1 H2]. apply N.leb_le in H1, H2.
    intros [= Heq]. lia.
  - intros [= ->]. vm_compute in Hs. discriminate Hs.
Qed.

Lemma split_scheme_no_hash u : "#" ∉ (split_scheme u).1.
Proof.
  unfold split_scheme.
  destruct (contains ":" u && head_is is_ascii_alpha u
            && forallb is_scheme_char (before ":" u)) eqn:E;
    [|apply not_elem_of_nil].
  apply andb_true_iff in E as [_ E]. simpl.
  rewrite forallb_forall in E. unfold lower.
  intros Hin. apply list_elem_of_fmap in Hin as (c & Hc & Hin).
  apply list_elem_of_In, E in Hin. symmetry in Hc.
  by apply lower_scheme_char in Hc.
Qed.

Lemma split_netloc_no_hash u nl rest :
  split_netloc u = Some (nl, rest) -> "#" ∉ nl.
Proof.
  unfold split_netloc. destruct (startswith (lit "//") u).
  - set (n := take_until is_delim (drop 2 u)).
    destruct (xorb _ _); [done|]. destruct (_ && _); [done|].
    destruct (_ && _); [done|].
    intros [= <- _] Hin. by apply elem_of_take_until in Hin.
  - intros [= <- _]. apply not_elem_of_nil.
Qed.

(** No component that the normalizer reassembles holds a hash. *)
Lemma urlsplit_no_hash url r :
  urlsplit url = Some r ->
  ("#" ∉ scheme r) /\ ("#" ∉ netloc r) /\ ("#" ∉ path r) /\ ("#" ∉ query r).
Proof.
  unfold urlsplit.
  set (u := filter _ _).
  pose proof (split_scheme_no_hash u) as Hs.
  destruct (split_scheme u) as [sch u1].
  destruct (split_netloc u1) as [[nl u2]|] eqn:En; [|done].
  intros [= <-]. simpl. split; [done|].
  split; [by eapply split_netloc_no_hash|]. split.
  - intros Hin. apply elem_of_before in Hin.
    by apply not_elem_of_before in Hin.
  - intros Hin. apply elem_of_after in Hin.
    by apply not_elem_of_before in Hin.
Qed.

Lemma urlparse_no_hash url r :
  urlparse url = Some r ->
  ("#" ∉ scheme r) /\ ("#" ∉ netloc r) /\ ("#" ∉ path r) /\ ("#" ∉ query r).
Proof.
  unfold urlparse. destruct (urlsplit url) as [r0|] eqn:E; [|done].
  apply urlsplit_no_hash in E as (Hs & Hn & Hp & Hq).
  destruct (_ && _).
  - pose proof (elem_of_splitparams (path r0) "#") as Hsp.
    destruct (splitparams (path r0)) as [p0 ps]. intros [= <-]. simpl.
    naive_solver.
  - by intros [= <-].
Qed.

Lemma normalize_url_no_hash self url r :
  normalize_url self url = Some r -> "#" ∉ r.
Proof.
  unfold normalize_url. destruct (urlparse url) as [parsed|] eqn:E; [|done].
  apply urlparse_no_hash in E as (Hs & Hn & Hp & Hq).
  assert (Hloc : "#" ∉ rstrip is_slash (locator parsed)).
  { intros Hin. apply elem_of_rstrip in Hin. unfold locator in Hin.
    rewrite !elem_of_app in Hin.
    destruct Hin as [?|[Hin|[?|?]]]; try done.
    apply contains_elem in Hin. vm_compute in Hin. discriminate Hin. }
  intros [= <-]. destruct (query parsed) as [|q qs] eqn:Eq; [done|].
  rewrite !elem_of_app. intros [?|Hin]; [done|].
  apply elem_of_cons in Hin as [Heq|?]; [discriminate Heq | done].
Qed.

Lemma normalize_url_trailing_slash self url r :
  normalize_url self url = Some r -> last r = Some "/" -> "?" ∈ r.
Proof.
  unfold normalize_url. destruct (urlparse url) as [parsed|]; [|done].
  intros [= <-]. destruct (query parsed) as [|q qs].
  - intros Hl. by apply rstrip_last in Hl.
  - intros _. rewrite elem_of_app. right. by left.
Qed.

(** *** A fragment does not reach the parse of the rest *)

Lemma before_app_in c u x :
  contains c u = true -> before c (u ++ x) = before c u.
Proof.
  unfold contains. induction u as [|a u IH]; simpl; [done|].
  destruct (eqc a c); simpl; [done|]. intros Hc. by rewrite IH.
Qed.

Lemma after_app_in c u x :
  contains c u = true -> after c (u ++ x) = after c u ++ x.
Proof.
  unfold contains. induction u as [|a u IH]; simpl; [done|].
  destruct (eqc a c); simpl; [done|]. intros Hc. by rewrite IH.
Qed.

Lemma before_app_out c u x :
  contains c u = false -> before c (u ++ x) = u ++ before c x.
Proof.
  unfold contains. induction u as [|a u IH]; simpl; [done|].
  destruct (eqc a c); simpl; [done|]. intros Hc. by rewrite IH.
Qed.

Lemma after_app_out c u x :
  contains c u = false -> after c (u ++ x) = after c x.
Proof.
  unfold contains. induction u as [|a u IH]; simpl; [done|].
  destruct (eqc a c); simpl; [done|]. intros Hc. by rewrite IH.
Qed.

Lemma before_out c u : contains c u = false -> before c u = u.
Proof.
  intros Hc. rewrite <- (app_nil_r u) at 1.
  rewrite before_app_out by done. apply app_nil_r.
Qed.

Lemma after_out c u : contains c u = false -> after c u = [].
Proof.
  intros Hc. rewrite <- (app_nil_r u). by rewrite after_app_out.
Qed.

Lemma lstrip_app_stop p s c t :
  p c = false -> lstrip p (s ++ c :: t) = lstrip p s ++ c :: t.
Proof.
  intros Hc. induction s as [|a s IH]; simpl; [by rewrite Hc|].
  by destruct (p a).
Qed.

Lemma elem_of_lstrip p s a : a ∈ lstrip p s -> a ∈ s.
Proof.
  induction s as [|b s IH]; simpl; [done|].
  destruct (p b); [|done]. rewrite elem_of_cons. naive_solver.
Qed.

Lemma take_until_app_stop p s c t :
  p c = true -> take_until p (s ++ c :: t) = take_until p s.
Proof.
  intros Hc. induction s as [|a s IH]; simpl; [by rewrite Hc|].
  destruct (p a); [done|]. by rewrite IH.
Qed.

Lemma drop_until_app_stop p s c t :
  p c = true -> drop_until p (s ++ c :: t) = drop_until p s ++ c :: t.
Proof.
  intros Hc. induction s as [|a s IH]; simpl; [by rewrite Hc|].
  by destruct (p a).
Qed.

Lemma cleaned_app_hash url f :
  cleaned (url ++ "#" :: f)
  = cleaned url ++ "#" :: filter (fun c => negb (is_unsafe c)) f.
Proof.
  unfold cleaned. rewrite lstrip_app_stop by done.
  rewrite filter_app. by rewrite filter_cons_True.
Qed.

Lemma cleaned_no_hash url : "#" ∉ url -> contains "#" (cleaned url) = false.
Proof.
  intros Hn. apply contains_not_elem. intros Hin. apply Hn.
  unfold cleaned in Hin. apply list_elem_of_filter in Hin as [_ Hin].
  by apply elem_of_lstrip in Hin.
Qed.

Lemma split_scheme_app_hash u f :
  contains "#" u = false ->
  split_scheme (u ++ "#" :: f)
  = ((split_scheme u).1, (split_scheme u).2 ++ "#" :: f).
Proof.
  intros Hu. unfold split_scheme. destruct (contains ":" u) eqn:Ec.
  - rewrite contains_app, Ec. cbn [orb andb].
    rewrite before_app_in, after_app_in by done.
    assert (head_is is_ascii_alpha (u ++ "#" :: f) = head_is is_ascii_alpha u) as ->
      by (by destruct u).
    by destruct (head_is is_ascii_alpha u && forallb is_scheme_char (before ":" u)).
  - cbn [andb]. rewrite before_app_out by done.
    cbn [before]. change (eqc "#" ":") with false. cbv iota.
    rewrite forallb_app. cbn [forallb].
    change (is_scheme_char "#") with false.
    cbn [andb]. by rewrite !andb_false_r.
Qed.

Lemma split_scheme_rest u a : a ∈ (split_scheme u).2 -> a ∈ u.
Proof.
  unfold split_scheme. destruct (_ && _); simpl; [|done]. apply elem_of_after.
Qed.

Lemma split_netloc_app_hash v f :
  contains "#" v = false ->
  split_netloc (v ++ "#" :: f)
  = (fun nr : str * str => (nr.1, nr.2 ++ "#" :: f)) <$> split_netloc v.
Proof.
  intros Hv. unfold split_netloc. change (lit "//") with ["/"; "/"].
  destruct v as [|a [|b v]].
  - reflexivity.
  - cbn [app startswith]. change (eqc "/" "#") with false.
    rewrite !andb_false_r. reflexivity.
  - cbn [app startswith]. destruct (eqc "/" a && (eqc "/" b && true)); [|done].
    change (drop 2 (a :: b :: v ++ "#" :: f)) with (v ++ "#" :: f).
    change (drop 2 (a :: b :: v)) with v. rewrite take_until_app_stop, drop_until_app_stop by done.
    set (nl := take_until is_delim v).
    destruct (xorb _ _); [done|]. destruct (_ && _); [done|].
    by destruct (_ && _).
Qed.

Lemma split_netloc_rest u nl rest a :
  split_netloc u = Some (nl, rest) -> a ∈ rest -> a ∈ u.
Proof.
  unfold split_netloc. change (lit "//") with ["/"; "/"].
  destruct u as [|b [|b' u]].
  - cbn [startswith]. by intros [= _ <-].
  - cbn [startswith]. rewrite andb_false_r. by intros [= _ <-].
  - destruct (startswith ["/"; "/"] (b :: b' :: u)); [|by intros [= _ <-]].
    change (drop 2 (b :: b' :: u)) with u.
    destruct (xorb _ _); [done|]. destruct (_ && _); [done|].
    destruct (_ && _); [done|].
    intros [= _ <-] Hin. apply elem_of_drop_until in Hin.
    rewrite !elem_of_cons. auto.
Qed.

Lemma urlsplit_app_hash url f :
  "#" ∉ url ->
  urlsplit (url ++ "#" :: f)
  = with_fragment (filter (fun c => negb (is_unsafe c)) f) <$> urlsplit url.
Proof.
  intros Hn. unfold urlsplit. fold (cleaned (url ++ "#" :: f)) (cleaned url).
  rewrite cleaned_app_hash.
  pose proof (cleaned_no_hash url Hn) as Hc.
  rewrite split_scheme_app_hash by done.
  pose proof (split_scheme_rest (cleaned url) "#") as Hrest.
  destruct (split_scheme (cleaned url)) as [sch u1]. cbn [fst snd] in *.
  assert (Hu1 : contains "#" u1 = false).
  { apply contains_not_elem. intros Hin. apply Hrest in Hin.
    by apply contains_elem in Hin; congruence. }
  rewrite split_netloc_app_hash by done.
  destruct (split_netloc u1) as [[nl u2]|] eqn:En; [|done].
  assert (Hu2 : contains "#" u2 = false).
  { apply contains_not_elem. intros Hin.
    eapply split_netloc_rest in Hin; [|exact En].
    by apply contains_elem in Hin; congruence. }
  cbn [fmap option_fmap option_map fst snd].
  rewrite (before_app_out "#" u2), (after_app_out "#" u2) by exact Hu2.
  cbn [before after]. change (eqc "#" "#") with true. cbv iota.
  rewrite app_nil_r, (before_out "#" u2), (after_out "#" u2) by done.
  reflexivity.
Qed.

Lemma urlparse_app_hash url f :
  "#" ∉ url ->
  urlparse (url ++ "#" :: f)
  = with_fragment (filter (fun c => negb (is_unsafe c)) f) <$> urlparse url.
Proof.
  intros Hn. unfold urlparse. rewrite urlsplit_app_hash by done.
  destruct (urlsplit url) as [r|]; [|done].
  cbn [fmap option_fmap option_map with_fragment scheme path].
  destruct (_ && _); [|done]. by destruct (splitparams (path r)).
Qed.

Lemma normalize_url_app_hash self url f :
  "#" ∉ url ->
  normalize_url self (url ++ "#" :: f) = normalize_url self url.
Proof.
  intros Hn. unfold normalize_url. rewrite urlparse_app_hash by done.
  by destruct (urlparse url).
Qed.

End UrlFacts.

(** C4, as stated, fails: [rstrip('/')] takes off every trailing slash,
    not exactly one.  For https://x.com/a// the code gives
    https://x.com/a, the algorithm of the claim https://x.com/a/. *)
Lemma normalize_url_one_slash_fails :
  ~ (forall (L : Libs) (self : DocumentationScraper) (url : str),
       normalize_url self url = url_normalizer_spec url).
Proof.
  intros Hall.
  specialize (Hall plain_libs (init (lit "https://x.com") (lit "docs"))
                   (lit "https://x.com/a//")).
  vm_compute in Hall. discriminate Hall.
Qed.

(** C4, amended.  For every URL string that urlparse accepts, the URL
    Normalizer returns the reassembled scheme://host/path without any of
    its trailing slashes, followed by ?query when the query is not empty;
    the result holds no hash, and a fragment at the end of the input does
    not change it.  https://x.com/a/ and https://x.com/a have the same
    result, and so have https://x.com/a#section and https://x.com/a. *)
Theorem normalize_url_all_trailing_slashes
    `{Libs} (self : DocumentationScraper) :
  (forall url r,
     normalize_url self url = Some r ->
     exists parsed body slashes,
       urlparse url = Some parsed /\
       locator parsed = body ++ slashes /\
       Forall (fun c => c = "/") slashes /\
       last body <> Some "/" /\
       r = body ++ (if bool_decide (query parsed = []) then []
                    else "?" :: query parsed) /\
       "#" ∉ r) /\
  (forall url frag,
     "#" ∉ url ->
     normalize_url self (url ++ "#" :: frag) = normalize_url self url) /\
  normalize_url self (lit "https://x.com/a/") = Some (lit "https://x.com/a") /\
  normalize_url self (lit "https://x.com/a") = Some (lit "https://x.com/a") /\
  normalize_url self (lit "https://x.com/a#section")
  = Some (lit "https://x.com/a").
Proof.
  split; [|split; [apply normalize_url_app_hash|]].
  - intros url r Hr. pose proof (normalize_url_no_hash self url r Hr) as Hh.
    unfold normalize_url in Hr.
    destruct (urlparse url) as [parsed|] eqn:E; [|done].
    destruct (rstrip_app is_slash (locator parsed)) as (k & Hs & Hk).
    exists parsed, (rstrip is_slash (locator parsed)), k.
    split; [done|]. split; [done|]. split.
    { eapply Forall_impl; [exact Hk|]. intros a Ha. by apply eqc_true in Ha. }
    split.
    { intros Hl. by apply rstrip_last in Hl. }
    split; [|done]. injection Hr as <-.
    destruct (query parsed); [by rewrite app_nil_r | done].
  - repeat split; vm_compute; reflexivity.
Qed.

Lemma normalize_url_all_trailing_slashes_witness :
  exists parsed body slashes,
    @urlparse plain_libs (lit "https://x.com/a//?q=1#top") = Some parsed /\
    locator parsed = body ++ slashes /\
    Forall (fun c => c = "/") slashes /\
    last body <> Some "/" /\
    lit "https://x.com/a?q=1"
    = body ++ (if bool_decide (query parsed = []) then []
               else "?" :: query parsed) /\
    "#" ∉ lit "https://x.com/a?q=1".
Proof.
  apply (proj1 (@normalize_url_all_trailing_slashes plain_libs
                  (init (lit "https://x.com") (lit "docs")))
           (lit "https://x.com/a//?q=1#top")).
  vm_compute. reflexivity.
Defined.

(** ** The crawl loop *)

Section CrawlFacts.

Context `{Libs}.
Implicit Types (self : DocumentationScraper) (st : crawl) (url : str).

(** Only the base prefix of the scraper matters to link extraction. *)
Lemma is_valid_url_base self1 self2 u :
  base_url self1 = base_url self2 ->
  is_valid_url self1 u = is_valid_url self2 u.
Proof. intros Hb. unfold is_valid_url. by rewrite Hb. Qed.

Lemma collect_links_base self1 self2 cur hrefs acc :
  base_url self1 = base_url self2 ->
  collect_links self1 cur hrefs acc = collect_links self2 cur hrefs acc.
Proof.
  intros Hb. revert acc. induction hrefs as [|h hrefs IH]; intros acc; [done|].
  cbn [collect_links]. destruct (urljoin cur h) as [a|]; [|done].
  cbn [mbind option_bind].
  change (normalize_url self1 a) with (normalize_url self2 a).
  destruct (normalize_url self2 a) as [n|]; [|done].
  cbn [mbind option_bind].
  by rewrite (is_valid_url_base self1 self2 _ Hb), IH.
Qed.

Lemma extract_links_base self1 self2 soup cur :
  base_url self1 = base_url self2 ->
  extract_links self1 soup cur = extract_links self2 soup cur.
Proof. apply collect_links_base. Qed.

(** Whatever link extraction adds went through the normalizer and
    passed the scope filter. *)
Lemma collect_links_sound self cur hrefs acc links u :
  collect_links self cur hrefs acc = Some links ->
  u ∈ links ->
  u ∈ acc \/
  (is_valid_url self (Some u) = true /\
   exists x, normalize_url self x = Some u).
Proof.
  revert acc. induction hrefs as [|h hrefs IH]; intros acc; cbn [collect_links].
  - intros [= <-]. by left.
  - destruct (urljoin cur h) as [a|]; [|done]. cbn [mbind option_bind].
    destruct (normalize_url self a) as [n|] eqn:En; [|done].
    cbn [mbind option_bind]. intros Hc Hu. destruct (IH _ Hc Hu) as [Hacc|?]; [|by right].
    destruct (is_valid_url self (Some n)) eqn:Ev; [|by left].
    apply elem_of_union in Hacc as [?|Hn]; [by left|].
    apply elem_of_singleton in Hn as ->. right. eauto.
Qed.

Lemma discovered_sound self url resp u :
  u ∈ discovered self url resp ->
  is_valid_url self (Some u) = true /\
  exists x, normalize_url self x = Some u.
Proof.
  destruct resp as [|soup saved]; cbn [discovered]; [set_solver|].
  destruct (extract_links self _ url) as [links|] eqn:El; cbn; [|set_solver].
  intros Hu. unfold extract_links in El.
  destruct (collect_links_sound _ _ _ _ _ _ El Hu) as [?|?]; [set_solver|done].
Qed.

(** What one call of the [try] block does to the scraper. *)
Lemma try_page_scraper self dsk url resp :
  exists new,
    new ⊆ discovered self url resp /\
    base_url (try_page self dsk url resp).1.1 = base_url self /\
    visited_urls (try_page self dsk url resp).1.1 = visited_urls self /\
    urls_to_visit (try_page self dsk url resp).1.1
    = urls_to_visit self ∪ (new ∖ visited_urls self).
Proof.
  destruct resp as [|soup saved]; cbn [try_page discovered].
  { exists ∅. cbn. set_solver. }
  destruct (extract_content self soup) as [content soup'] eqn:Ec. cbn [snd].
  destruct saved; [|exists ∅; cbn; set_solver..].
  rewrite (extract_links_base (count_scraped self) self) by done.
  destruct (extract_links self soup' url) as [links|];
    [exists links | exists ∅]; cbn; set_solver.
Qed.

(** What one turn of the loop does to the scraper. *)
Lemma iteration_scraper st url resp :
  exists new,
    new ⊆ discovered (scraper st) url resp /\
    base_url (scraper (iteration st url resp)) = base_url (scraper st) /\
    visited_urls (scraper (iteration st url resp))
    = visited_urls (scraper st) ∪ {[ url ]} /\
    urls_to_visit (scraper (iteration st url resp))
    = (urls_to_visit (scraper st) ∖ {[ url ]})
      ∪ (new ∖ (visited_urls (scraper st) ∪ {[ url ]})).
Proof.
  unfold iteration, scrape_page. cbn [pop visited_urls].
  case_bool_decide as Hv.
  - exists ∅. cbn. set_solver.
  - set (marked := add_visited url (pop url (scraper st))).
    destruct (try_page_scraper marked (disk st) url resp)
      as (new & Hnew & Hb & Hvis & Hto).
    exists new.
    destruct (try_page marked (disk st) url resp) as [[self' dsk'] res].
    cbn in *. rewrite Hb, Hvis, Hto. split; [|done].
    unfold discovered in *. destruct resp as [|soup saved]; [done|].
    by rewrite (extract_links_base (scraper st) marked).
Qed.

(** The results and the disk after one turn. *)
Lemma try_page_result self dsk url resp r :
  (try_page self dsk url resp).2 = Some r ->
  result_url r = url /\ exists soup, resp = Fetched soup Saved.
Proof.
  destruct resp as [|soup saved]; cbn [try_page]; [done|].
  destruct (extract_content self soup) as [content soup'].
  destruct saved; [|done..].
  destruct (extract_links _ soup' url); [|done].
  cbn. intros [= <-]. eauto.
Qed.

Lemma iteration_results st url resp :
  results (iteration st url resp) = results st \/
  exists r soup,
    results (iteration st url resp) = results st ++ [r] /\
    result_url r = url /\ url ∉ visited_urls (scraper st) /\
    resp = Fetched soup Saved.
Proof.
  unfold iteration, scrape_page. cbn [pop visited_urls].
  case_bool_decide as Hv; [by left|].
  set (marked := add_visited url (pop url (scraper st))).
  pose proof (try_page_result marked (disk st) url resp) as Hr.
  destruct (try_page marked (disk st) url resp) as [[self' dsk'] [r|]];
    [|by left].
  right. destruct (Hr r eq_refl) as (? & soup & ?). by exists r, soup.
Qed.

Lemma iteration_failed st url :
  results (iteration st url RequestFailed) = results st /\
  disk (iteration st url RequestFailed) = disk st /\
  scraped_count (scraper (iteration st url RequestFailed))
  = scraped_count (scraper st).
Proof. unfold iteration, scrape_page. by case_bool_decide. Qed.

(** *** Invariants of the reachable states *)

Lemma steps_invariant (P : crawl -> Prop) st0 ls st :
  (forall st url resp,
     P st -> url ∈ urls_to_visit (scraper st) -> P (iteration st url resp)) ->
  steps st0 ls st -> P st0 -> P st.
Proof.
  intros Hstep. induction 1 as [|st l st' ls st'' Hs _ IH]; [done|].
  intros HP. apply IH. destruct Hs as [st url resp Hin]. by apply Hstep.
Qed.

Lemma steps_app st ls st' ls' st'' :
  steps st ls st' -> steps st' ls' st'' -> steps st (ls ++ ls') st''.
Proof.
  induction 1 as [|? ? ? ? ? Hs _ IH]; [done|].
  intros Hrest. eapply steps_cons; [exact Hs | by apply IH].
Qed.

Lemma disjoint_iteration st url resp :
  disjoint_sets st -> disjoint_sets (iteration st url resp).
Proof.
  unfold disjoint_sets. intros Hd.
  destruct (iteration_scraper st url resp) as (new & _ & _ & -> & ->).
  set_solver.
Qed.

Lemma disjoint_steps st0 ls st :
  steps st0 ls st -> disjoint_sets st0 -> disjoint_sets st.
Proof.
  apply steps_invariant. intros ? ? ? ? _. by apply disjoint_iteration.
Qed.

Lemma disjoint_start base out : disjoint_sets (start base out).
Proof. unfold disjoint_sets. cbn. set_solver. Qed.

Lemma visited_steps st0 ls st :
  steps st0 ls st ->
  visited_urls (scraper st0) ⊆ visited_urls (scraper st).
Proof.
  induction 1 as [|st l st' ls st'' Hs _ IH]; [done|].
  destruct Hs as [st url resp _].
  destruct (iteration_scraper st url resp) as (_ & _ & _ & Hv & _).
  set_solver.
Qed.


Lemma discovered_base self1 self2 url resp :
  base_url self1 = base_url self2 ->
  discovered self1 url resp = discovered self2 url resp.
Proof.
  intros Hb. destruct resp as [|soup saved]; [done|]. cbn [discovered].
  by rewrite (extract_links_base self1 self2).
Qed.

Lemma results_visited_steps st0 ls st :
  steps st0 ls st -> results_visited st0 -> results_visited st.
Proof.
  apply steps_invariant. intros st' url resp HR _ r Hr.
  destruct (iteration_scraper st' url resp) as (_ & _ & _ & -> & _).
  destruct (iteration_results st' url resp) as [Heq|(r' & soup & Heq & Hu & _)];
    rewrite Heq in Hr.
  - apply HR in Hr. set_solver.
  - apply elem_of_app in Hr as [Hr|Hr]; [apply HR in Hr; set_solver|].
    apply list_elem_of_singleton in Hr as ->. set_solver.
Qed.

(** Once a URL is visited and has no result, it stays that way, and the
    loop never takes it again. *)
Lemma skipped_for_good st url ls st' :
  steps st ls st' ->
  disjoint_sets st ->
  url ∈ visited_urls (scraper st) ->
  (forall r, r ∈ results st -> result_url r <> url) ->
  url ∈ visited_urls (scraper st') /\
  url ∉ urls_to_visit (scraper st') /\
  (forall r, r ∈ results st' -> result_url r <> url) /\
  (forall resp, (url, resp) ∉ ls).
Proof.
  induction 1 as [st|st l st1 ls st2 Hs _ IH]; intros Hd Hv Hr.
  - repeat split; [done|set_solver|done|]. intros resp. apply not_elem_of_nil.
  - destruct Hs as [st u resp Hu].
    assert (Hne : u <> url) by (intros ->; set_solver).
    destruct IH as (Hv2 & Hf2 & Hr2 & Hl2).
    + by apply disjoint_iteration.
    + destruct (iteration_scraper st u resp) as (_ & _ & _ & -> & _).
      set_solver.
    + intros r Hin.
      destruct (iteration_results st u resp)
        as [Heq|(r' & soup & Heq & Hru & _)]; rewrite Heq in Hin.
      * by apply Hr.
      * apply elem_of_app in Hin as [Hin|Hin]; [by apply Hr|].
        apply list_elem_of_singleton in Hin as ->. congruence.
    + repeat split; [done..|]. intros resp'. rewrite elem_of_cons.
      intros [[= -> _]|Hin]; [done|]. by apply (Hl2 resp').
Qed.

(** *** Termination *)

Lemma bounded_iteration base out V st url resp :
  bounded_by base V st ->
  discovered (init base out) url resp ⊆ V ->
  url ∈ urls_to_visit (scraper st) ->
  bounded_by base V (iteration st url resp) /\
  size (V ∖ visited_urls (scraper (iteration st url resp)))
  < size (V ∖ visited_urls (scraper st)).
Proof.
  intros (Hd & HV & Hb) Hdisc Hu. split.
  - split; [by apply disjoint_iteration|].
    destruct (iteration_scraper st url resp) as (new & Hnew & -> & -> & ->).
    split; [|done].
    rewrite (discovered_base (scraper st) (init base out)) in Hnew by done.
    set_solver.
  - destruct (iteration_scraper st url resp) as (_ & _ & _ & -> & _).
    apply subset_size. unfold disjoint_sets in Hd. set_solver.
Qed.

Lemma run_terminates base out V choose site fuel st :
  (forall s u, choose s = Some u -> u ∈ s) ->
  (forall s, choose s = None -> s = ∅) ->
  (forall url, discovered (init base out) url (site url) ⊆ V) ->
  bounded_by base V st ->
  size (V ∖ visited_urls (scraper st)) <= fuel ->
  exists st' ls,
    run fuel choose site st = Some st' /\
    urls_to_visit (scraper st') = ∅ /\
    visited_urls (scraper st') ⊆ V /\
    steps st ls st' /\ length ls <= fuel.
Proof.
  intros Hsome Hnone Hsite. revert st.
  induction fuel as [|fuel IH]; intros st Hb Hsz.
  - cbn [run]. destruct (choose (urls_to_visit (scraper st))) as [u|] eqn:Ec.
    + apply Hsome in Ec. destruct Hb as (Hd & HV & _).
      assert (Hempty : V ∖ visited_urls (scraper st) = ∅).
      { apply leibniz_equiv, size_empty_inv. lia. }
      unfold disjoint_sets in Hd. set_solver.
    + exists st, []. apply Hnone in Ec. destruct Hb as (_ & HV & _).
      repeat split; [done| set_solver | constructor | done].
  - cbn [run]. destruct (choose (urls_to_visit (scraper st))) as [u|] eqn:Ec.
    + apply Hsome in Ec.
      destruct (bounded_iteration base out V st u (site u) Hb (Hsite u) Ec)
        as [Hb' Hlt].
      destruct (IH _ Hb') as (st' & ls & Hrun & He & Hv & Hst & Hlen); [lia|].
      exists st', ((u, site u) :: ls). repeat split; [done..| |cbn; lia].
      eapply steps_cons; [by apply step_pop | done].
    + exists st, []. apply Hnone in Ec. destruct Hb as (_ & HV & _).
      repeat split; [done| set_solver | constructor | cbn; lia].
Qed.

Lemma steps_bounded base out V st ls st' :
  steps st ls st' ->
  bounded_by base V st ->
  (forall url resp, (url, resp) ∈ ls -> discovered (init base out) url resp ⊆ V) ->
  length ls <= size (V ∖ visited_urls (scraper st)).
Proof.
  induction 1 as [st|st l st1 ls st2 Hs _ IH]; intros Hb Hls; [cbn; lia|].
  destruct Hs as [st u resp Hu].
  destruct (bounded_iteration base out V st u resp Hb) as [Hb' Hlt];
    [apply Hls; by left | done |].
  specialize (IH Hb'). cbn [length].
  assert (length ls <= size (V ∖ visited_urls (scraper (iteration st u resp)))).
  { apply IH. intros url' resp' Hin. apply Hls. by right. }
  lia.
Qed.

Lemma bounded_start (base out : str) (in_scope : gset str) :
  bounded_by base (in_scope ∪ {[ base ]}) (start base out).
Proof.
  split; [apply disjoint_start|]. split; [cbn; set_solver | done].
Qed.

Lemma first_element_some (s : gset str) u :
  first_element s = Some u -> u ∈ s.
Proof.
  unfold first_element. intros Hh. apply elem_of_elements.
  destruct (elements s); [done|]. injection Hh as ->. by left.
Qed.

Lemma first_element_none (s : gset str) :
  first_element s = None -> s = ∅.
Proof.
  unfold first_element. intros Hh. apply leibniz_equiv, elements_empty_inv.
  by destruct (elements s).
Qed.

End CrawlFacts.

(** ** The invariants of the crawl *)

Lemma two_steps :
  @steps plain_libs (start docs_home (lit "docs")) two_labels after_two.
Proof.
  unfold two_labels, after_two.
  eapply steps_cons.
  { apply step_pop. by_compute. }
  eapply steps_cons; [|apply steps_nil].
  apply (@step_pop plain_libs after_one).
  by_compute.
Qed.

(** C1. In every state the loop can reach, no URL is both in the frontier
    and in Visited.  A URL taken from the frontier is not visited yet, so
    [scrape_page] marks it before the [try] block that fetches: the state
    the fetch starts from has the URL in Visited and keeps the two sets
    apart.  After the turn, whatever the answer, the URL is visited,
    Visited has only grown and the two sets are disjoint again. *)
Theorem frontier_visited_disjoint
    `{Libs} (base out : str) (ls : list (str * response)) (st : crawl) :
  steps (start base out) ls st ->
  urls_to_visit (scraper st) ## visited_urls (scraper st) /\
  forall url resp,
    url ∈ urls_to_visit (scraper st) ->
    let marked := add_visited url (pop url (scraper st)) in
    scrape_page (pop url (scraper st)) (disk st) url resp
    = try_page marked (disk st) url resp /\
    url ∈ visited_urls marked /\
    urls_to_visit marked ## visited_urls marked /\
    url ∈ visited_urls (scraper (iteration st url resp)) /\
    visited_urls (scraper st) ⊆ visited_urls (scraper (iteration st url resp)) /\
    urls_to_visit (scraper (iteration st url resp))
      ## visited_urls (scraper (iteration st url resp)).
Proof.
  intros Hsteps.
  assert (Hd : disjoint_sets st)
    by (eapply disjoint_steps; [exact Hsteps | apply disjoint_start]).
  split; [exact Hd|]. intros url resp Hu marked.
  pose proof (disjoint_iteration st url resp Hd) as Hd'.
  destruct (iteration_scraper st url resp) as (_ & _ & _ & Hv & _).
  unfold disjoint_sets in *. repeat split.
  - unfold scrape_page. rewrite bool_decide_eq_false_2; [done|].
    cbn. set_solver.
  - subst marked. cbn. set_solver.
  - subst marked. cbn. set_solver.
  - rewrite Hv. set_solver.
  - rewrite Hv. set_solver.
  - exact Hd'.
Qed.

Lemma frontier_visited_disjoint_witness :
  urls_to_visit (scraper after_two) ## visited_urls (scraper after_two).
Proof.
  exact (proj1 (@frontier_visited_disjoint plain_libs docs_home (lit "docs")
                  two_labels after_two two_steps)).
Defined.

(** C2. When every page of the site links, within scope, only to URLs of
    a finite set, the loop stops: for any way [pop] chooses, a fuel of one
    more than the size of that set lets [run] return, with an empty
    frontier and every visited URL in the set or the seed; and any
    sequence of turns, whatever is popped and answered within that set,
    is no longer than that. *)
Theorem crawl_terminates
    `{Libs} (base out : str) (in_scope : gset str)
    (choose : gset str -> option str) (site : str -> response) :
  (forall s u, choose s = Some u -> u ∈ s) ->
  (forall s, choose s = None -> s = ∅) ->
  (forall url, discovered (init base out) url (site url) ⊆ in_scope) ->
  (exists st ls,
     run (S (size in_scope)) choose site (start base out) = Some st /\
     urls_to_visit (scraper st) = ∅ /\
     visited_urls (scraper st) ⊆ in_scope ∪ {[ base ]} /\
     steps (start base out) ls st /\
     length ls <= S (size in_scope)) /\
  (forall ls st,
     steps (start base out) ls st ->
     (forall url resp,
        (url, resp) ∈ ls -> discovered (init base out) url resp ⊆ in_scope) ->
     length ls <= S (size in_scope)).
Proof.
  intros Hsome Hnone Hsite.
  assert (Hsz : size (in_scope ∪ {[ base ]}) <= S (size in_scope)).
  { rewrite size_union_alt.
    assert (size ({[ base ]} ∖ in_scope : gset str) <= 1); [|lia].
    rewrite <- (size_singleton (C := gset str) base).
    apply subseteq_size. set_solver. }
  split.
  - apply (run_terminates base out (in_scope ∪ {[ base ]})); try done.
    + intros url. specialize (Hsite url). set_solver.
    + apply bounded_start.
    + etrans; [|exact Hsz]. apply subseteq_size. set_solver.
  - intros ls st Hsteps Hls.
    etrans; [eapply (steps_bounded base out (in_scope ∪ {[ base ]}));
             [exact Hsteps | apply bounded_start |]|].
    + intros url resp Hin. specialize (Hls url resp Hin). set_solver.
    + etrans; [|exact Hsz]. apply subseteq_size. set_solver.
Qed.

Lemma three_pages_in_scope url :
  @discovered plain_libs (init docs_home (lit "docs")) url (three_pages url)
  ⊆ three_urls.
Proof.
  unfold three_pages. repeat case_bool_decide; subst;
    try (by_compute).
  all: cbn [discovered]; set_solver.
Qed.

Lemma crawl_terminates_witness :
  exists st ls,
    @run plain_libs (S (size three_urls)) first_element three_pages
      (start docs_home (lit "docs")) = Some st /\
    urls_to_visit (scraper st) = ∅ /\
    visited_urls (scraper st) ⊆ three_urls ∪ {[ docs_home ]} /\
    @steps plain_libs (start docs_home (lit "docs")) ls st /\
    length ls <= S (size three_urls).
Proof.
  apply (@crawl_terminates plain_libs docs_home (lit "docs") three_urls
           first_element three_pages).
  - exact first_element_some.
  - exact first_element_none.
  - exact three_pages_in_scope.
Defined.

Section ScopeOfTheSets.

Context `{Libs}.

Lemma seed_or_link_steps (base out : str) ls st :
  steps (start base out) ls st -> seed_or_link base out st.
Proof.
  intros Hsteps. eapply steps_invariant; [|exact Hsteps|].
  - clear. intros st url resp [Hb HP] Hu. unfold seed_or_link.
    destruct (iteration_scraper st url resp) as (new & Hnew & -> & -> & ->).
    split; [done|]. intros u Hin.
    destruct (decide (u ∈ new)) as [Hn|Hn].
    + right. apply Hnew in Hn.
      rewrite (discovered_base (scraper st) (init base out)) in Hn by done.
      by apply discovered_sound in Hn.
    + apply HP. set_solver.
  - split; [done|]. intros u Hin. left. cbn in Hin. set_solver.
Qed.

Lemma seed_in_scope (base out : str) :
  base <> [] -> is_valid_url (init base out) (Some base) = true.
Proof.
  intros Hne. destruct base as [|c base]; [done|].
  cbn [is_valid_url init base_url]. by apply startswith_prefix.
Qed.

End ScopeOfTheSets.

(** C3, as stated, fails.  The constructor puts its argument into the
    frontier as it is: with the base https://x.com/docs/ the seed keeps
    its trailing slash and is no fixed point of the normalizer.  A link
    that link discovery adds need not be one either:
    https://x.com/docs/a;x/ is normalized to https://x.com/docs/a;x, which
    enters the frontier, and normalizing that again drops the path
    parameter. *)
Lemma frontier_not_all_normalized :
  ~ (forall (L : Libs) (base out : str) ls st u,
       steps (start base out) ls st ->
       u ∈ urls_to_visit (scraper st) ∪ visited_urls (scraper st) ->
       normalize_url (scraper st) u = Some u /\
       is_valid_url (scraper st) (Some u) = true) /\
  (exists ls st u,
     @steps plain_libs (start docs_home (lit "docs")) ls st /\
     u ∈ urls_to_visit (scraper st) /\ u <> docs_home /\
     @normalize_url plain_libs (scraper st) u <> Some u).
Proof.
  split.
  - intros Hall.
    destruct (Hall plain_libs (lit "https://x.com/docs/") (lit "docs") []
                (start (lit "https://x.com/docs/") (lit "docs"))
                (lit "https://x.com/docs/")) as [Hn _].
    + apply steps_nil.
    + by_compute.
    + vm_compute in Hn. discriminate Hn.
  - exists [(docs_home, params_page)],
      (@iteration plain_libs (start docs_home (lit "docs")) docs_home params_page),
      (lit "https://x.com/docs/a;x").
    split; [|split; [|split]].
    + eapply steps_cons; [|apply steps_nil]. apply step_pop.
      by_compute.
    + by_compute.
    + vm_compute. discriminate.
    + vm_compute. discriminate.
Qed.

(** C3, amended.  Every URL ever present in the frontier or in Visited,
    the seed apart, is a result of the URL Normalizer that link discovery
    admitted: it holds no hash and ends in a slash only if that slash
    belongs to its query.  Every URL of the two sets that is not the empty
    string satisfies the Scope Filter, the seed included, for every
    base-URL argument. *)
Theorem frontier_urls_in_scope
    `{Libs} (base out : str) (ls : list (str * response)) (st : crawl)
    (u : str) :
  steps (start base out) ls st ->
  u ∈ urls_to_visit (scraper st) ∪ visited_urls (scraper st) ->
  (u = base \/
   ((exists x, normalize_url (scraper st) x = Some u) /\
    "#" ∉ u /\ (last u = Some "/" -> "?" ∈ u))) /\
  (u <> [] -> is_valid_url (scraper st) (Some u) = true).
Proof.
  intros Hsteps Hu.
  destruct (seed_or_link_steps base out ls st Hsteps) as [Hb HP].
  assert (Hv : forall x, is_valid_url (scraper st) x
                         = is_valid_url (init base out) x)
    by (intros x; by apply is_valid_url_base).
  destruct (HP u Hu) as [->|(Hvalid & x & Hx)].
  - split; [by left|]. intros Hne. rewrite Hv. by apply seed_in_scope.
  - split; [|by rewrite Hv]. right. split_and!.
    + by exists x.
    + by apply (normalize_url_no_hash (init base out) x).
    + by apply (normalize_url_trailing_slash (init base out) x).
Qed.

Lemma frontier_urls_in_scope_witness :
  (lit "https://x.com/docs/b" = docs_home \/
   ((exists x, @normalize_url plain_libs (scraper after_two) x
               = Some (lit "https://x.com/docs/b")) /\
    "#" ∉ lit "https://x.com/docs/b" /\
    (last (lit "https://x.com/docs/b") = Some "/" ->
     "?" ∈ lit "https://x.com/docs/b"))) /\
  (lit "https://x.com/docs/b" <> [] ->
   is_valid_url (scraper after_two) (Some (lit "https://x.com/docs/b")) = true).
Proof.
  apply (@frontier_urls_in_scope plain_libs docs_home (lit "docs")
           two_labels after_two (lit "https://x.com/docs/b")).
  - exact two_steps.
  - by_compute.
Defined.

(** C7. When the request for a URL fails, the turn adds no result, leaves
    the disk and the count of scraped pages as they were and the URL in
    Visited; the frontier is the one left by the pop, and the loop goes on
    from that state.  From then on the URL stays in Visited, never enters
    the frontier again, is never taken by the loop again and never gets a
    result. *)
Theorem failed_fetch_skipped
    `{Libs} (base out : str) (ls : list (str * response)) (st : crawl)
    (url : str) :
  steps (start base out) ls st ->
  url ∈ urls_to_visit (scraper st) ->
  let st' := iteration st url RequestFailed in
  results st' = results st /\
  disk st' = disk st /\
  scraped_count (scraper st') = scraped_count (scraper st) /\
  url ∈ visited_urls (scraper st') /\
  urls_to_visit (scraper st') = urls_to_visit (scraper st) ∖ {[ url ]} /\
  (forall choose site fuel,
     choose (urls_to_visit (scraper st)) = Some url ->
     site url = RequestFailed ->
     run (S fuel) choose site st = run fuel choose site st') /\
  (forall ls' st'',
     steps st' ls' st'' ->
     url ∈ visited_urls (scraper st'') /\
     url ∉ urls_to_visit (scraper st'') /\
     (forall r, r ∈ results st'' -> result_url r <> url) /\
     (forall resp, (url, resp) ∉ ls')).
Proof.
  intros Hsteps Hu st'.
  assert (Hd : disjoint_sets st)
    by (eapply disjoint_steps; [exact Hsteps | apply disjoint_start]).
  assert (HR : results_visited st).
  { eapply results_visited_steps; [exact Hsteps|]. intros r Hr. inversion Hr. }
  destruct (iteration_failed st url) as (Hres & Hdisk & Hcount).
  destruct (iteration_scraper st url RequestFailed)
    as (new & Hnew & _ & Hv & Hf).
  assert (Hnv : url ∉ visited_urls (scraper st))
    by (unfold disjoint_sets in Hd; set_solver).
  split_and!; try done.
  - subst st'. rewrite Hv. set_solver.
  - subst st'. rewrite Hf. cbn [discovered] in Hnew. set_solver.
  - intros choose site fuel Hc Hs. cbn [run]. by rewrite Hc, Hs.
  - intros ls' st'' Hsteps'.
    eapply skipped_for_good; [exact Hsteps' | | |].
    + by apply disjoint_iteration.
    + subst st'. rewrite Hv. set_solver.
    + subst st'. rewrite Hres. intros r Hr Heq. apply HR in Hr.
      by rewrite Heq in Hr.
Qed.

Lemma failed_fetch_skipped_witness :
  results after_two = results after_one /\
  disk after_two = disk after_one /\
  lit "https://x.com/docs/c" ∈ visited_urls (scraper after_two).
Proof.
  destruct (@failed_fetch_skipped plain_libs docs_home (lit "docs")
              [(docs_home, three_pages docs_home)] after_one
              (lit "https://x.com/docs/c")) as (Hr & Hd & _ & Hv & _).
  - eapply steps_cons; [|apply steps_nil]. apply step_pop.
    by_compute.
  - by_compute.
  - repeat split; assumption.
Defined.

(** ** Trimmed text *)

Section TitleFacts.

Implicit Types (s : str) (l : list str) (c : char).

Lemma clean_ends_strip p s : clean_ends p (strip p s).
Proof. split; [apply strip_head | apply strip_last]. Qed.

Lemma clean_ends_concat p l :
  Forall (fun s => s <> [] /\ clean_ends p s) l -> clean_ends p (concat l).
Proof.
  induction 1 as [|s l [Hne [Hh Hl]] _ [IHh IHl]]; [by split|].
  cbn [concat]. split.
  - destruct s as [|a s]; [done|]. exact Hh.
  - intros c. rewrite last_app. destruct (last (concat l)) as [y|] eqn:E.
    + intros [= <-]. by apply IHl.
    + apply Hl.
Qed.

Lemma stripped_strings_clean n :
  Forall (fun s => s <> [] /\ clean_ends is_space s) (stripped_strings n).
Proof.
  unfold stripped_strings. apply Forall_forall. intros s Hin.
  apply list_elem_of_filter in Hin as [Hne Hin]. split; [done|].
  apply list_elem_of_omap in Hin as (d & _ & Hd).
  destruct d as [t| |]; try done. injection Hd as <-.
  apply clean_ends_strip.
Qed.

Lemma get_text_strip_trimmed n : trimmed (get_text_strip n).
Proof.
  unfold trimmed, get_text_strip.
  destruct (clean_ends_concat is_space _ (stripped_strings_clean n)).
  by apply strip_fix.
Qed.

(** The text of an element that holds one string is that string,
    trimmed. *)
Lemma get_text_strip_single name attrs s :
  get_text_strip (Tag name attrs [Text s]) = strip is_space s.
Proof.
  unfold get_text_strip, stripped_strings.
  change (descendants (Tag name attrs [Text s])) with [Text s].
  cbn [omap list_omap].
  destruct (strip is_space s) as [|c t] eqn:E.
  - rewrite filter_cons_False by naive_solver. done.
  - rewrite filter_cons_True by done. cbn. by rewrite app_nil_r.
Qed.

End TitleFacts.

(** * More of the code *)

(** ** File names *)

Section FilenameFacts.

Context `{Libs}.
Implicit Types (s t : str) (c : char).

Lemma sub_special_keeps s : Forall (fun c => keep_char c = true) (sub_special s).
Proof.
  unfold sub_special. apply Forall_fmap, Forall_true. intros c. cbn.
  by destruct (keep_char c) eqn:E.
Qed.

Lemma elem_of_sub_underscores s c : c ∈ sub_underscores s -> c ∈ s.
Proof.
  induction s as [|a s IH]; cbn [sub_underscores]; [done|].
  destruct (is_us a && head_is is_us s); rewrite !elem_of_cons; naive_solver.
Qed.

Lemma head_sub_underscores s :
  head_is is_us (sub_underscores s) = head_is is_us s.
Proof.
  induction s as [|a s IH]; cbn [sub_underscores]; [done|].
  destruct (is_us a) eqn:Ea; cbn [andb]; [|cbn; by rewrite Ea].
  destruct (head_is is_us s) eqn:Es; cbn [head_is]; rewrite ?IH, ?Ea; done.
Qed.

Lemma sub_underscores_single s : single_underscores (sub_underscores s).
Proof.
  induction s as [|a s IH]; cbn [sub_underscores]; [done|].
  destruct (is_us a && head_is is_us s) eqn:E; [done|].
  cbn [single_underscores]. by rewrite head_sub_underscores.
Qed.

Lemma single_underscores_app s t :
  single_underscores s -> single_underscores t -> head_is is_us t = false ->
  single_underscores (s ++ t).
Proof.
  intros Hs Ht Hh. induction s as [|a s IH]; [done|].
  destruct Hs as [Ha Hs]. cbn [app single_underscores]. split; [|by apply IH].
  destruct s as [|b s]; [|done]. cbn. rewrite Hh. apply andb_false_r.
Qed.

Lemma single_underscores_no_pair a b :
  single_underscores (a ++ "_" :: "_" :: b) -> False.
Proof.
  induction a as [|c a IH]; cbn [app single_underscores].
  - by intros [? _].
  - intros [_ ?]. by apply IH.
Qed.

End FilenameFacts.

Lemma url_to_filename_name `{Libs} (self : DocumentationScraper) (url : str) :
  exists name,
    Forall (fun c => keep_char c = true) name /\
    single_underscores name /\
    url_to_filename self url
    = if endswith mdx name then name else name ++ mdx.
Proof.
  unfold url_to_filename.
  set (p := before "?" _). exists (sub_underscores (sub_special p)).
  split_and!; [|apply sub_underscores_single|done].
  apply Forall_forall. intros c Hc. apply elem_of_sub_underscores in Hc.
  revert c Hc. apply Forall_forall, sub_special_keeps.
Qed.

Lemma url_to_filename_chars `{Libs} (self : DocumentationScraper) (url : str) :
  Forall (fun c => keep_char c = true) (url_to_filename self url).
Proof.
  destruct (url_to_filename_name self url) as (name & Hk & _ & ->).
  destruct (endswith mdx name); [done|]. apply Forall_app. split; [done|].
  by repeat constructor.
Qed.

Lemma url_to_filename_mdx `{Libs} (self : DocumentationScraper) (url : str) :
  mdx `suffix_of` url_to_filename self url.
Proof.
  destruct (url_to_filename_name self url) as (name & _ & _ & ->).
  destruct (endswith mdx name) eqn:E; [by apply endswith_suffix|].
  by apply suffix_app_r.
Qed.

(** What the class of the first substitution lets through. *)
Lemma keep_char_cases `{Libs} (c : char) :
  keep_char c = true <->
  (is_ascii c = true /\ is_ascii_alnum c = true) \/
  (is_ascii c = false /\ unicode_alnum c = true) \/
  c ∈ ["_"; "-"; "."].
Proof.
  unfold keep_char, is_word, isalnum.
  rewrite !orb_true_iff, !eqc_true, !elem_of_cons, elem_of_nil.
  destruct (is_ascii c); naive_solver.
Qed.

Lemma url_to_filename_no_slash `{Libs} (self : DocumentationScraper)
    (url : str) :
  "/" ∉ url_to_filename self url.
Proof.
  intros Hin. pose proof (url_to_filename_chars self url) as Hall.
  rewrite Forall_forall in Hall. apply Hall in Hin. discriminate Hin.
Qed.

(** X1. Every file name that [url_to_filename] returns is made of word
    characters, hyphens and dots only: ASCII letters and digits, the
    underscore, and beyond ASCII the characters that the Unicode database
    has as letters or digits.  So it holds no slash and names a file of
    the output directory itself; it ends in .mdx, and it never has two
    underscores in a row. *)
Theorem url_to_filename_safe `{Libs} :
  forall (self : DocumentationScraper) (url : str),
    (forall c,
       c ∈ url_to_filename self url ->
       (is_ascii c = true /\ is_ascii_alnum c = true) \/
       (is_ascii c = false /\ unicode_alnum c = true) \/
       c ∈ ["_"; "-"; "."]) /\
    "/" ∉ url_to_filename self url /\
    mdx `suffix_of` url_to_filename self url /\
    (forall a b, url_to_filename self url <> a ++ lit "__" ++ b).
Proof.
  intros self url.
  pose proof (url_to_filename_chars self url) as Hall.
  split_and!.
  - intros c Hc. apply keep_char_cases.
    rewrite Forall_forall in Hall. by apply Hall.
  - apply url_to_filename_no_slash.
  - apply url_to_filename_mdx.
  - destruct (url_to_filename_name self url) as (name & _ & Hs & ->).
    assert (Hsingle : single_underscores
                        (if endswith mdx name then name else name ++ mdx)).
    { destruct (endswith mdx name); [done|].
      apply single_underscores_app; [done| |done]. by repeat constructor. }
    intros a b Heq. rewrite Heq in Hsingle.
    by apply single_underscores_no_pair in Hsingle.
Qed.

Section QueryFacts.

Implicit Types (p : char -> bool) (s t u q old : str) (c : char).

Lemma elem_of_remove_go old k s c : c ∈ remove_go old k s -> c ∈ s.
Proof.
  revert k. induction s as [|a s IH]; intros k; cbn [remove_go]; [done|].
  destruct k as [|k].
  - destruct (startswith old (a :: s)); rewrite ?elem_of_cons; naive_solver.
  - rewrite elem_of_cons. naive_solver.
Qed.

Lemma elem_of_remove_all old s c : c ∈ remove_all old s -> c ∈ s.
Proof. destruct old; [done|]. apply elem_of_remove_go. Qed.

Lemma startswith_app_stop old u c q :
  c ∉ old -> startswith old (u ++ c :: q) = startswith old u.
Proof.
  revert u. induction old as [|a old IH]; intros u Hc; [done|].
  apply not_elem_of_cons in Hc as [Hne Hc]. destruct u as [|b u].
  - cbn. assert (eqc a c = false) as -> by (by apply eqc_false). done.
  - cbn [app startswith]. by rewrite IH.
Qed.

Lemma startswith_length old s : startswith old s = true -> length old <= length s.
Proof. intros Hp. apply startswith_prefix in Hp. by apply prefix_length. Qed.

Lemma remove_go_app_stop old k u c q :
  old <> [] -> c ∉ old -> k <= length u ->
  remove_go old k (u ++ c :: q) = remove_go old k u ++ c :: remove_go old 0 q.
Proof.
  intros Hne Hc. revert k. induction u as [|a u IH]; intros k Hk.
  - assert (k = 0) as -> by (cbn in Hk; lia). cbn [app remove_go].
    assert (startswith old (c :: q) = false) as ->; [|done].
    destruct old as [|b old]; [done|]. cbn.
    apply not_elem_of_cons in Hc as [Hb _].
    assert (eqc b c = false) as -> by (by apply eqc_false). done.
  - cbn [app remove_go]. destruct k as [|k].
    + change (a :: u ++ c :: q) with ((a :: u) ++ c :: q).
      rewrite startswith_app_stop by done.
      destruct (startswith old (a :: u)) eqn:Es.
      * apply IH. apply startswith_length in Es. cbn in Es. lia.
      * cbn [app]. f_equal. apply IH. lia.
    + apply IH. cbn in Hk. lia.
Qed.

Lemma remove_all_app_stop old u c q :
  c ∉ old ->
  remove_all old (u ++ c :: q) = remove_all old u ++ c :: remove_all old q.
Proof.
  intros Hc. destruct old as [|b old'] eqn:E; [done|]. unfold remove_all.
  apply remove_go_app_stop; [done|done|lia].
Qed.

Lemma lstrip_app_nonempty p s t :
  lstrip p s <> [] -> lstrip p (s ++ t) = lstrip p s ++ t.
Proof.
  induction s as [|a s IH]; cbn [lstrip app]; [done|].
  destruct (p a); [exact IH | done].
Qed.

Lemma rstrip_app_nonempty p s t :
  rstrip p t <> [] -> rstrip p (s ++ t) = s ++ rstrip p t.
Proof.
  intros Ht. induction s as [|a s IH]; [done|].
  cbn [app rstrip]. rewrite IH.
  destruct (s ++ rstrip p t) eqn:E; [|done].
  apply app_eq_nil in E as [_ E]. done.
Qed.

Lemma last_lstrip p s : lstrip p s <> [] -> last (lstrip p s) = last s.
Proof.
  induction s as [|a s IH]; cbn [lstrip]; [done|].
  destruct (p a) eqn:Ea; [|done]. intros Hne. rewrite (IH Hne).
  destruct s; [done|]. by rewrite last_cons_cons.
Qed.

End QueryFacts.

(** X2. The query of a URL does not reach the file name.  When neither
    the base prefix nor the part of the URL before the query holds a
    question mark, and what is left of that part without the base prefix
    is not made of slashes only and does not end in a slash, the URL
    with a query appended gets the file name of the URL without it: pages
    that differ in their query alone are written to the same file. *)
Theorem url_to_filename_ignores_query
    `{Libs} (self : DocumentationScraper) (url query_string : str) :
  "?" ∉ base_url self ->
  "?" ∉ url ->
  strip is_slash (remove_all (base_url self) url) <> [] ->
  last (remove_all (base_url self) url) <> Some "/" ->
  url_to_filename self (url ++ "?" :: query_string) = url_to_filename self url.
Proof.
  intros Hb Hu Hne Hl. unfold url_to_filename.
  rewrite remove_all_app_stop by done.
  set (r := remove_all (base_url self) url) in *.
  set (q := remove_all (base_url self) query_string).
  assert (Hr : "?" ∉ r).
  { intros Hin. by apply elem_of_remove_all in Hin. }
  assert (Hls : lstrip is_slash r <> []).
  { intros E. unfold strip in Hne. by rewrite E in Hne. }
  assert (Hstrip : strip is_slash r = lstrip is_slash r).
  { unfold strip. rewrite <- (app_nil_r (lstrip is_slash r)) at 1.
    apply rstrip_unique; [constructor|]. intros c Hc.
    rewrite last_lstrip in Hc by done. apply eqc_false. intros ->. done. }
  destruct (rstrip_cons_keep is_slash "?" q eq_refl) as [q' Hq'].
  assert (Hstrip' : strip is_slash (r ++ "?" :: q)
                    = lstrip is_slash r ++ "?" :: q').
  { unfold strip. rewrite lstrip_app_nonempty by done.
    rewrite rstrip_app_nonempty; rewrite Hq'; done. }
  rewrite Hstrip', Hstrip.
  assert (Hq : contains "?" (lstrip is_slash r) = false).
  { apply contains_not_elem. intros Hin. by apply elem_of_lstrip in Hin. }
  destruct (lstrip is_slash r) as [|c t] eqn:E; [done|].
  cbn [app]. rewrite <- E in *.
  assert (before "?" (lstrip is_slash r ++ "?" :: q') = lstrip is_slash r) as Hbf.
  { rewrite before_app_out by done. cbn. apply app_nil_r. }
  rewrite E in Hbf at 1. cbn [app] in Hbf. rewrite Hbf.
  by rewrite (before_out "?" (lstrip is_slash r)).
Qed.

Lemma url_to_filename_ignores_query_witness :
  let self := init (lit "https://x.com/docs") (lit "docs") in
  @url_to_filename plain_libs self
    (lit "https://x.com/docs/a/b" ++ "?" :: lit "page=2")
  = @url_to_filename plain_libs self (lit "https://x.com/docs/a/b").
Proof.
  intros self.
  apply (@url_to_filename_ignores_query plain_libs self
           (lit "https://x.com/docs/a/b")
           (lit "page=2")).
  - intros Hin. apply contains_elem in Hin. vm_compute in Hin. discriminate.
  - intros Hin. apply contains_elem in Hin. vm_compute in Hin. discriminate.
  - vm_compute. discriminate.
  - vm_compute. discriminate.
Defined.

(** ** Titles *)

Lemma extract_title_nonempty (self : DocumentationScraper) (soup : node) :
  extract_title self soup <> [].
Proof.
  unfold extract_title. cbn zeta.
  repeat match goal with
  | |- context [find ?p soup] => destruct (find p soup)
  | |- context [get_text_strip ?n] => destruct (get_text_strip n)
  | |- context [strip is_space ?x] => destruct (strip is_space x)
  end; done.
Qed.

(** ** The document tree and [extract_content] *)

Section DomFacts.

Implicit Types (n c d : node) (cs : list node) (names : list str).

(** Induction on a tree, with the property known for the children. *)
Lemma node_induction (P : node -> Prop) :
  (forall s, P (Text s)) ->
  (forall s, P (Comment s)) ->
  (forall nm a cs, Forall P cs -> P (Tag nm a cs)) ->
  forall n, P n.
Proof.
  intros HT HC HG. fix IH 1. intros [s|s|nm a cs]; [apply HT | apply HC |].
  apply HG. induction cs as [|c cs IHcs]; constructor; [apply IH | exact IHcs].
Qed.

Lemma subtree_tag nm a cs :
  subtree (Tag nm a cs) = Tag nm a cs :: flat_map subtree cs.
Proof.
  reflexivity.
Qed.

Lemma subtree_cons n : subtree n = n :: descendants n.
Proof. unfold descendants. by destruct n. Qed.

Lemma descendants_tag nm a cs :
  descendants (Tag nm a cs) = flat_map subtree cs.
Proof. unfold descendants. by rewrite subtree_tag. Qed.

Lemma decompose_all_tag names nm a cs :
  decompose_all names (Tag nm a cs)
  = Tag nm a (map (decompose_all names)
                (filter (fun c => named_in names c = false) cs)).
Proof.
  cbn [decompose_all]. f_equal. induction cs as [|c cs IH]; [done|].
  fold (named_in names c). destruct (named_in names c) eqn:E.
  - rewrite filter_cons_False by congruence. exact IH.
  - rewrite filter_cons_True by done. cbn [map]. by rewrite <- IH.
Qed.

Lemma named_in_decompose names' names n :
  named_in names' (decompose_all names n) = named_in names' n.
Proof. by destruct n. Qed.

Lemma Forall_flat_map_subtree (Q : node -> Prop) cs :
  Forall (fun c => Q c /\ Forall Q (descendants c)) cs <->
  Forall Q (flat_map subtree cs).
Proof.
  induction cs as [|c cs IH]; cbn [flat_map].
  - split; intros _; constructor.
  - rewrite Forall_cons, Forall_app, subtree_cons, Forall_cons, IH. tauto.
Qed.

Lemma decompose_all_removes names n :
  Forall (fun d => named_in names d = false)
    (descendants (decompose_all names n)).
Proof.
  induction n as [s|s|nm a cs IH] using node_induction; [constructor..|].
  rewrite decompose_all_tag, descendants_tag.
  apply Forall_flat_map_subtree, Forall_fmap, Forall_forall.
  intros c Hc. apply list_elem_of_filter in Hc as [Hk Hc]. cbn.
  split; [by rewrite named_in_decompose|].
  rewrite Forall_forall in IH. by apply IH.
Qed.

Lemma decompose_all_unchanged names n :
  Forall (fun d => named_in names d = false) (descendants n) ->
  decompose_all names n = n.
Proof.
  induction n as [s|s|nm a cs IH] using node_induction; [done..|].
  rewrite descendants_tag, <- Forall_flat_map_subtree. intros Hcs.
  rewrite decompose_all_tag. f_equal.
  induction cs as [|c cs IHcs]; [done|].
  apply Forall_cons in IH as [IHc IH']. apply Forall_cons in Hcs as [[Hc Hd] Hcs].
  rewrite filter_cons_True by done. cbn [map]. rewrite (IHc Hd).
  f_equal. by apply IHcs.
Qed.

Lemma find_some p soup c :
  find p soup = Some c -> c ∈ descendants soup /\ p c = true.
Proof.
  unfold find. intros Hh. apply head_Some_elem_of in Hh.
  by apply list_elem_of_filter in Hh as [? ?].
Qed.

Lemma find_none p soup :
  find p soup = None -> Forall (fun d => p d = false) (descendants soup).
Proof.
  unfold find. intros Hh. apply head_None in Hh. apply Forall_forall.
  intros d Hd. destruct (p d) eqn:E; [|done].
  assert (d ∈ filter (fun n => p n = true) (descendants soup))
    by (by apply list_elem_of_filter).
  rewrite Hh in *. by apply not_elem_of_nil in H.
Qed.

End DomFacts.

Section RewriteFacts.

Variables (name : str) (f : node -> node).
Hypothesis f_keeps_name : forall c, is_tag name c = true -> is_tag name (f c) = true.

Implicit Types (n c d : node) (cs : list node).

Lemma rewrite_first_tag nm a cs :
  rewrite_first name f (Tag nm a cs)
  = option_map (Tag nm a) (rewrite_children name f cs).
Proof.
  cbn [rewrite_first]. f_equal. induction cs as [|c cs IH]; [done|].
  cbn [rewrite_children]. destruct (is_tag name c); [done|].
  destruct (rewrite_first name f c); [done|]. by rewrite IH.
Qed.

Lemma find_tag p nm a cs : find p (Tag nm a cs) = first_in p cs.
Proof. unfold find, first_in. by rewrite descendants_tag. Qed.

Lemma first_in_cons p c cs :
  first_in p (c :: cs)
  = if p c then Some c
    else match find p c with
         | Some x => Some x
         | None => first_in p cs
         end.
Proof.
  unfold first_in, find. cbn [flat_map]. rewrite subtree_cons, filter_app.
  destruct (p c) eqn:E.
  - by rewrite filter_cons_True.
  - rewrite filter_cons_False by congruence.
    by destruct (filter _ (descendants c)).
Qed.

Local Notation rewritten := (rewritten_by name f).

Lemma rewrite_children_spec cs :
  Forall rewritten cs ->
  match rewrite_children name f cs with
  | Some cs' =>
      exists c, first_in (is_tag name) cs = Some c /\
                first_in (is_tag name) cs' = Some (f c) /\
                (f c = c -> cs' = cs)
  | None => first_in (is_tag name) cs = None
  end.
Proof.
  induction 1 as [|c cs Hc _ IH]; [done|].
  cbn [rewrite_children]. rewrite first_in_cons.
  destruct (is_tag name c) eqn:E.
  - exists c. split; [done|]. rewrite first_in_cons, (f_keeps_name c E).
    split; [done|]. by intros ->.
  - unfold rewritten_by in Hc. destruct (rewrite_first name f c) as [c'|].
    + destruct Hc as (Hroot & x & Hx & Hx' & Hid). exists x.
      rewrite Hx. split; [done|].
      rewrite first_in_cons, Hroot, E, Hx'. split; [done|].
      intros Hfx. by rewrite (Hid Hfx).
    + rewrite Hc. destruct (rewrite_children name f cs) as [cs'|]; [|done].
      destruct IH as (x & Hx & Hx' & Hid). exists x. split; [done|].
      cbn [option_map]. rewrite first_in_cons, E, Hc. split; [done|].
      intros Hfx. by rewrite (Hid Hfx).
Qed.

Lemma rewrite_first_spec n : rewritten n.
Proof.
  induction n as [s|s|nm a cs IH] using node_induction; [done..|].
  unfold rewritten_by. rewrite rewrite_first_tag, !find_tag.
  pose proof (rewrite_children_spec cs IH) as Hcs.
  destruct (rewrite_children name f cs) as [cs'|]; [|done].
  destruct Hcs as (x & Hx & Hx' & Hid). cbn [option_map].
  split; [done|]. exists x. rewrite find_tag. split; [done|].
  split; [done|]. intros Hfx. by rewrite (Hid Hfx).
Qed.

End RewriteFacts.

Lemma first_selected_app pre sel post soup c :
  Forall (fun s => select_one s soup = None) pre ->
  select_one sel soup = Some c ->
  first_selected (pre ++ sel :: post) soup = Some c.
Proof.
  intros Hpre Hsel. induction Hpre as [|s pre Hs _ IH]; cbn [app first_selected].
  - by rewrite Hsel.
  - by rewrite Hs.
Qed.

(** X4. [extract_content] takes the first selector of its list that
    matches anything: when the selectors before it match nothing, the
    content is the first node in document order that this selector
    matches, and the soup is left as it was. *)
Theorem extract_content_first_selector
    (self : DocumentationScraper) (soup : node)
    (pre : list selector) (sel : selector) (post : list selector) (c : node) :
  content_selectors = pre ++ sel :: post ->
  Forall (fun s => select_one s soup = None) pre ->
  select_one sel soup = Some c ->
  extract_content self soup = (c, soup) /\
  c ∈ descendants soup /\
  matches sel c = true.
Proof.
  intros Hsels Hpre Hsel. unfold extract_content.
  rewrite Hsels, (first_selected_app pre sel post soup c Hpre Hsel).
  split; [done|]. by apply find_some.
Qed.

Lemma extract_content_first_selector_witness :
  let soup := soup_of [Tag (lit "body") []
                         [Tag (lit "nav") [] [Text (lit "menu")];
                          Tag (lit "article") [] [Text (lit "text")]]] in
  extract_content (init docs_home (lit "docs")) soup
  = (Tag (lit "article") [] [Text (lit "text")], soup).
Proof.
  intros soup.
  apply (extract_content_first_selector (init docs_home (lit "docs")) soup
           [ByTag (lit "main")] (ByTag (lit "article"))
           (drop 2 content_selectors)).
  - reflexivity.
  - repeat constructor.
  - reflexivity.
Defined.

(** X5. When no selector matches, [extract_content] falls back to the
    first body tag with every nav, header, footer, script and style tag
    below it removed, and because the removal is done in place the soup
    that the caller goes on with has that pruned body as its body too; a
    body without such tags comes back as it is, with the soup unchanged.
    Without a body the content is the whole soup. *)
Theorem extract_content_fallback
    (self : DocumentationScraper) (soup : node) :
  first_selected content_selectors soup = None ->
  match find (is_tag (lit "body")) soup with
  | Some body =>
      exists content soup',
        extract_content self soup = (content, soup') /\
        content = decompose_all non_content body /\
        Forall (fun d => named_in non_content d = false) (descendants content) /\
        find (is_tag (lit "body")) soup' = Some content /\
        (Forall (fun d => named_in non_content d = false) (descendants body) ->
         content = body /\ soup' = soup)
  | None => extract_content self soup = (soup, soup)
  end.
Proof.
  intros Hnone. unfold extract_content. rewrite Hnone.
  destruct (find (is_tag (lit "body")) soup) as [body|] eqn:Ef; [|done].
  eexists _, _. split; [reflexivity|]. split; [done|].
  split; [apply decompose_all_removes|].
  pose proof (rewrite_first_spec (lit "body") (decompose_all non_content)) as Hrw.
  specialize (Hrw ltac:(intros c Hc; by destruct c) soup). unfold rewritten_by in Hrw.
  destruct (rewrite_first (lit "body") (decompose_all non_content) soup)
    as [soup'|]; [|congruence].
  destruct Hrw as (_ & c & Hc & Hc' & Hid). rewrite Ef in Hc.
  injection Hc as <-. cbn [default]. split; [done|].
  intros Hclean. pose proof (decompose_all_unchanged _ _ Hclean) as Heq.
  split; [done|]. by apply Hid.
Qed.

Lemma extract_content_fallback_witness :
  exists content soup',
    extract_content (init docs_home (lit "docs"))
      (soup_of [Tag (lit "body") []
                  [Tag (lit "nav") [] [link "https://x.com/docs/b"];
                   Tag (lit "p") [] [Text (lit "text")]]])
    = (content, soup') /\
    content = decompose_all non_content
                (Tag (lit "body") []
                   [Tag (lit "nav") [] [link "https://x.com/docs/b"];
                    Tag (lit "p") [] [Text (lit "text")]]) /\
    Forall (fun d => named_in non_content d = false) (descendants content) /\
    find (is_tag (lit "body")) soup' = Some content /\
    (Forall (fun d => named_in non_content d = false)
       (descendants (Tag (lit "body") []
                       [Tag (lit "nav") [] [link "https://x.com/docs/b"];
                        Tag (lit "p") [] [Text (lit "text")]])) ->
     content = Tag (lit "body") []
                 [Tag (lit "nav") [] [link "https://x.com/docs/b"];
                  Tag (lit "p") [] [Text (lit "text")]] /\
     soup' = soup_of [Tag (lit "body") []
                        [Tag (lit "nav") [] [link "https://x.com/docs/b"];
                         Tag (lit "p") [] [Text (lit "text")]]]).
Proof.
  apply (extract_content_fallback (init docs_home (lit "docs"))
           (soup_of [Tag (lit "body") []
                       [Tag (lit "nav") [] [link "https://x.com/docs/b"];
                        Tag (lit "p") [] [Text (lit "text")]]])).
  reflexivity.
Defined.

(** ** Title Extraction and the Markup Converter *)

Section TitleWords.

Implicit Types (n c d : node) (cs : list node) (p : node -> bool).

Lemma is_space_white_space (c : char) :
  is_space c = true <-> code c ∈ white_space.
Proof.
  destruct c as [n]. unfold is_space, between, white_space. cbn [code].
  rewrite !orb_true_iff, !andb_true_iff, !N.leb_le, !elem_of_cons, elem_of_nil.
  lia.
Qed.

Lemma find_first_below p n : find p n = first_below p n.
Proof.
  induction n as [s|s|nm a cs IH] using node_induction; [done..|].
  rewrite find_tag. cbn [first_below].
  induction cs as [|c cs IHcs]; [done|].
  apply Forall_cons in IH as [Hc Hcs].
  rewrite first_in_cons, Hc, (IHcs Hcs). done.
Qed.

Lemma get_text_strip_tag nm a cs :
  get_text_strip (Tag nm a cs) = trimmed_strings (Tag nm a cs).
Proof.
  unfold get_text_strip, stripped_strings. rewrite descendants_tag.
  cbn [trimmed_strings].
  assert (Hnode : forall n,
    concat (filter (fun s : str => s <> [])
              (omap (fun d => match d with
                              | Text s => Some (strip is_space s)
                              | _ => None
                              end) (subtree n)))
    = trimmed_strings n).
  { clear. induction n as [s|s|nm a cs IH] using node_induction.
    - cbn [subtree omap list_omap trimmed_strings].
      destruct (strip is_space s) eqn:E.
      + by rewrite filter_cons_False by naive_solver.
      + rewrite filter_cons_True by done. cbn. by rewrite app_nil_r.
    - done.
    - rewrite subtree_tag. cbn [omap list_omap trimmed_strings].
      induction cs as [|c cs IHcs]; [done|].
      apply Forall_cons in IH as [Hc Hcs]. cbn [flat_map].
      rewrite omap_app, filter_app, concat_app, Hc, (IHcs Hcs). done. }
  induction cs as [|c cs IH]; [done|].
  cbn [flat_map]. rewrite omap_app, filter_app, concat_app, Hnode, IH. done.
Qed.

End TitleWords.

Section TitleWords2.

Implicit Types (n d e : node) (cs : list node) (p : char -> bool) (s : str).

Lemma get_text_strip_found name soup e :
  find (is_tag name) soup = Some e -> get_text_strip e = trimmed_strings e.
Proof.
  intros Hf. apply find_some in Hf as [_ Ht].
  destruct e as [s|s|nm a cs]; [done..|]. apply get_text_strip_tag.
Qed.

Lemma filter_lstrip p s :
  filter (fun c => p c = false) (lstrip p s) = filter (fun c => p c = false) s.
Proof.
  induction s as [|a s IH]; [done|]. cbn [lstrip].
  destruct (p a) eqn:E; [|done]. rewrite filter_cons_False by congruence. done.
Qed.

Lemma filter_rstrip p s :
  filter (fun c => p c = false) (rstrip p s) = filter (fun c => p c = false) s.
Proof.
  destruct (rstrip_app p s) as (k & Hs & Hk). rewrite Hs at 2.
  rewrite filter_app.
  assert (filter (fun c => p c = false) k = []) as ->; [|by rewrite app_nil_r].
  clear Hs. induction Hk as [|c k Hc _ IH]; [done|].
  rewrite filter_cons_False by congruence. done.
Qed.

Lemma filter_strip p s :
  filter (fun c => p c = false) (strip p s) = filter (fun c => p c = false) s.
Proof. unfold strip. by rewrite filter_rstrip, filter_lstrip. Qed.

(** Trimming string by string only takes white space away. *)
Lemma trimmed_strings_text n :
  filter (fun c => is_space c = false) (trimmed_strings n)
  = filter (fun c => is_space c = false) (text_of n).
Proof.
  induction n as [s|s|nm a cs IH] using node_induction.
  - apply filter_strip.
  - done.
  - cbn [trimmed_strings text_of]. induction cs as [|c cs IHcs]; [done|].
    apply Forall_cons in IH as [Hc Hcs].
    by rewrite !filter_app, Hc, (IHcs Hcs).
Qed.

Lemma no_space_at_ends_clean s : clean_ends is_space s -> no_space_at_ends s.
Proof.
  intros [Hh Hl]. split; intros c Hc Hin; apply is_space_white_space in Hin.
  - by rewrite (Hh c Hc) in Hin.
  - by rewrite (Hl c Hc) in Hin.
Qed.

Lemma trimmed_strings_clean n : clean_ends is_space (trimmed_strings n).
Proof.
  induction n as [s|s|nm a cs IH] using node_induction.
  - apply clean_ends_strip.
  - by split.
  - cbn [trimmed_strings]. induction cs as [|c cs IHcs]; [by split|].
    apply Forall_cons in IH as [[Hch Hcl] Hcs]. destruct (IHcs Hcs) as [Hh Hl].
    split.
    + intros x. destruct (trimmed_strings c) as [|y t]; [apply Hh|].
      cbn. intros [= <-]. by apply Hch.
    + intros x. rewrite last_app.
      destruct (last _) as [y|] eqn:E at 1; [|apply Hcl].
      intros [= <-]. by apply Hl.
Qed.

Lemma title_candidates_clean soup :
  Forall (clean_ends is_space) (title_candidates soup).
Proof.
  unfold title_candidates.
  constructor; [|constructor; [|constructor; [|constructor]]].
  - destruct (first_below _ soup); [apply trimmed_strings_clean | by split].
  - destruct (first_below _ soup); [apply trimmed_strings_clean | by split].
  - destruct (first_below _ soup); [apply clean_ends_strip | by split].
Qed.

Lemma extract_title_candidates (self : DocumentationScraper) soup :
  extract_title self soup
  = first_non_empty (title_candidates soup) (lit "Untitled").
Proof.
  pose proof (get_text_strip_found (lit "h1") soup) as Hh1.
  pose proof (get_text_strip_found (lit "title") soup) as Htt.
  unfold extract_title, title_candidates. rewrite <- !find_first_below.
  destruct (find (is_tag (lit "h1")) soup) as [h1|]; cbn [from_option].
  - rewrite <- (Hh1 h1 eq_refl). destruct (get_text_strip h1) as [|c t]; [|done].
    destruct (find (is_tag (lit "title")) soup) as [tt|]; cbn [from_option].
    + rewrite <- (Htt tt eq_refl).
      destruct (get_text_strip tt) as [|c t]; [|done].
      destruct (find is_og_title soup) as [m|]; cbn [from_option]; [|done].
      by destruct (strip is_space _).
    + destruct (find is_og_title soup) as [m|]; cbn [from_option]; [|done].
      by destruct (strip is_space _).
  - destruct (find (is_tag (lit "title")) soup) as [tt|]; cbn [from_option].
    + rewrite <- (Htt tt eq_refl).
      destruct (get_text_strip tt) as [|c t]; [|done].
      destruct (find is_og_title soup) as [m|]; cbn [from_option]; [|done].
      by destruct (strip is_space _).
    + destruct (find is_og_title soup) as [m|]; cbn [from_option]; [|done].
      by destruct (strip is_space _).
Qed.

End TitleWords2.

(** C8, as stated, fails: the candidate of an element is not its trimmed
    text.  [get_text(strip=True)] trims every string of the element on its
    own and joins what is left, so a heading with the strings "Getting "
    and "Started" gets the title GettingStarted, where the trimmed text
    of the heading is Getting Started. *)
Lemma extract_title_trimmed_text_fails :
  ~ (forall (self : DocumentationScraper) (soup : node),
       extract_title self soup = title_extraction_stated soup).
Proof.
  intros Hall.
  specialize (Hall (init (lit "https://x.com/docs") (lit "docs"))
                nested_heading).
  vm_compute in Hall. discriminate Hall.
Qed.

(** C8, amended.  Title Extraction returns the first candidate that is
    not empty, in the order: text of the first h1 element, text of the
    first title element, trimmed content attribute of the first og:title
    meta tag, and the placeholder Untitled when all three are empty or
    absent.  The text of an element is made of its strings, each trimmed
    on its own and joined without a separator: it differs from the text
    of the element in white space only, and for an element that holds a
    single string it is the trimmed text.  No candidate starts or ends
    with white space; a page with no h1, no title and no og:title yields
    Untitled. *)
Theorem extract_title_priority :
  forall (self : DocumentationScraper) (soup : node),
    extract_title self soup
    = first_non_empty (title_candidates soup) (lit "Untitled") /\
    Forall no_space_at_ends (title_candidates soup) /\
    (forall e,
       filter (fun c => is_space c = false) (trimmed_strings e)
       = filter (fun c => is_space c = false) (text_of e)) /\
    (forall name attrs s,
       trimmed_strings (Tag name attrs [Text s])
       = strip is_space (text_of (Tag name attrs [Text s]))) /\
    (Forall (fun c => c = []) (title_candidates soup) ->
     extract_title self soup = lit "Untitled") /\
    (first_below (is_tag (lit "h1")) soup = None ->
     first_below (is_tag (lit "title")) soup = None ->
     first_below is_og_title soup = None ->
     extract_title self soup = lit "Untitled").
Proof.
  intros self soup. split_and!.
  - apply extract_title_candidates.
  - eapply Forall_impl; [apply title_candidates_clean|].
    apply no_space_at_ends_clean.
  - apply trimmed_strings_text.
  - intros name attrs s. cbn. by rewrite !app_nil_r.
  - rewrite extract_title_candidates. unfold title_candidates.
    intros Hall. apply Forall_cons in Hall as [-> Hall].
    apply Forall_cons in Hall as [-> Hall].
    by apply Forall_cons in Hall as [-> _].
  - intros H1 H2 H3. rewrite extract_title_candidates. unfold title_candidates.
    by rewrite H1, H2, H3.
Qed.

Lemma extract_title_priority_witness :
  extract_title (init (lit "https://x.com/docs") (lit "docs")) blank_heading
  = lit "Docs" /\
  extract_title (init (lit "https://x.com/docs") (lit "docs")) nested_heading
  = lit "GettingStarted".
Proof.
  split.
  - rewrite (proj1 (extract_title_priority
                      (init (lit "https://x.com/docs") (lit "docs"))
                      blank_heading)).
    reflexivity.
  - rewrite (proj1 (extract_title_priority
                      (init (lit "https://x.com/docs") (lit "docs"))
                      nested_heading)).
    reflexivity.
Defined.

Ltac title_cases soup :=
  repeat match goal with
  | |- context [find ?p soup] => destruct (find p soup)
  | |- context [get_text_strip ?n] =>
      pose proof (get_text_strip_trimmed n);
      destruct (get_text_strip n)
  | |- context [strip is_space ?x] =>
      pose proof (strip_idem is_space x : trimmed (strip is_space x));
      destruct (strip is_space x)
  end.

(** X3. The title that [extract_title] returns is never the empty string
    and never starts or ends with white space, in the sense of
    [str.isspace], whatever the page holds. *)
Theorem extract_title_never_empty :
  forall (self : DocumentationScraper) (soup : node),
    extract_title self soup <> [] /\
    trimmed (extract_title self soup) /\
    no_space_at_ends (extract_title self soup).
Proof.
  intros self soup.
  assert (Ht : trimmed (extract_title self soup)).
  { unfold extract_title. cbn zeta.
    title_cases soup; cbn [default]; title_cases soup;
      first [assumption | reflexivity]. }
  split_and!; [apply extract_title_nonempty | exact Ht |].
  apply no_space_at_ends_clean. rewrite <- Ht. apply clean_ends_strip.
Qed.

Section DocumentFacts.

Implicit Types (s a b l : str) (c : char).

Lemma split_lines_cons_keep c s :
  c <> nl ->
  exists l ls, split_lines s = l :: ls /\ split_lines (c :: s) = (c :: l) :: ls.
Proof.
  intros Hc. cbn [split_lines].
  assert (eqc c "010" = false) as -> by (by apply eqc_false).
  destruct s as [|d s]; [by eexists _, _|].
  cbn [split_lines]. destruct (eqc d "010"); [by eexists _, _|].
  destruct (split_lines s); by eexists _, _.
Qed.

Lemma split_lines_line a s :
  nl ∉ a -> split_lines (a ++ nl :: s) = a :: split_lines s.
Proof.
  induction a as [|c a IH]; intros Ha; [done|].
  apply not_elem_of_cons in Ha as [Hc Ha].
  cbn [app split_lines].
  assert (eqc c "010" = false) as -> by (by apply eqc_false).
  by rewrite (IH Ha).
Qed.

Lemma split_lines_first s c :
  head s = Some c -> c <> nl ->
  exists l ls, split_lines s = l :: ls /\ l <> [].
Proof.
  destruct s as [|d s]; [done|]. intros [= ->] Hc.
  destruct (split_lines_cons_keep c s Hc) as (l & ls & _ & ->).
  by eexists _, _.
Qed.

Lemma split_lines_nonempty s : split_lines s <> [].
Proof.
  destruct s as [|c s]; [done|]. cbn [split_lines].
  destruct (eqc c "010"); [done|]. by destruct (split_lines s).
Qed.

Lemma split_lines_last s c :
  last s = Some c -> c <> nl -> last (split_lines s) <> Some [].
Proof.
  induction s as [|d s IH]; [done|]. intros Hl Hc. destruct s as [|e s].
  - injection Hl as ->. cbn.
    assert (eqc c "010" = false) as -> by (by apply eqc_false). done.
  - rewrite last_cons_cons in Hl. specialize (IH Hl Hc).
    pose proof (split_lines_nonempty (e :: s)) as Hne.
    change (split_lines (d :: e :: s))
      with (if eqc d "010" then [] :: split_lines (e :: s)
            else match split_lines (e :: s) with
                 | [] => [[d]]
                 | l :: ls => (d :: l) :: ls
                 end).
    destruct (split_lines (e :: s)) as [|l [|l' ls]]; [done| |];
      destruct (eqc d "010"); cbn in *; congruence.
Qed.

Lemma read_field_line key v :
  read_field key (key ++ lit ": " ++ quoted v) = Some v.
Proof.
  unfold read_field, quoted.
  set (pre := key ++ lit ": " ++ ["034"]).
  assert (Hline : key ++ lit ": " ++ "034" :: v ++ ["034"]
                  = pre ++ (v ++ ["034"])).
  { subst pre. by rewrite <- !app_assoc. }
  rewrite Hline, drop_app_length.
  assert (startswith pre (pre ++ v ++ ["034"]) = true) as ->
    by (apply startswith_prefix; by eexists).
  assert (endswith ["034"] (v ++ ["034"]) = true) as ->
    by (apply endswith_suffix; by eexists).
  cbn [andb]. f_equal. rewrite !length_app. cbn [length].
  replace (length pre + (length v + 1) - length pre - 1) with (length v) by lia.
  by rewrite take_app_length.
Qed.

Lemma split_lines_unlines (ls : list str) s :
  Forall (fun l => nl ∉ l) ls ->
  split_lines (concat (map (fun l => l ++ [nl]) ls) ++ s) = ls ++ split_lines s.
Proof.
  induction 1 as [|l ls Hl _ IH]; [done|].
  cbn [map concat]. rewrite <- !app_assoc. cbn [app].
  by rewrite split_lines_line, IH.
Qed.

Lemma header_lines_no_break title url :
  nl ∉ title -> nl ∉ url -> Forall (fun l => nl ∉ l) (header_lines title url).
Proof.
  intros Ht Hu.
  assert (Hq : forall v, nl ∉ v -> nl ∉ quoted v).
  { intros v Hv. unfold quoted.
    rewrite elem_of_cons, elem_of_app, list_elem_of_singleton.
    intros [?|[?|?]]; done. }
  assert (Hlit : forall k, contains nl k = false -> nl ∉ k)
    by (intros k; apply contains_not_elem).
  unfold header_lines.
  constructor; [by apply Hlit|].
  constructor; [rewrite elem_of_app; intros [Hin|Hin];
                [by apply (Hlit (lit "title: ")) | by apply (Hq title)]|].
  constructor; [rewrite elem_of_app; intros [Hin|Hin];
                [by apply (Hlit (lit "url: ")) | by apply (Hq url)]|].
  constructor; [by apply Hlit|].
  constructor; [apply not_elem_of_nil | constructor].
Qed.

Lemma not_space_not_break c : code c ∉ white_space -> c <> nl.
Proof. intros Hc ->. apply Hc. by_compute. Qed.

End DocumentFacts.

(** C9. The Markup Converter returns the header block: a line of three
    dashes, the title and the URL between double quotes under the keys
    title and url, a line of three dashes; then a blank line, then the
    body.  The body is what html2text renders from the content with links
    kept and a body width of 0, so no line of it is wrapped, whatever the
    library would do at a width, and it neither begins nor ends with
    white space; so a body that is not empty starts right after the one
    blank line and ends the document with its last character.  When
    title and URL hold no line break, the lines of the output are the
    five lines of the header followed by the lines of the body, and the
    title and the URL can be read back from the second and third line.
    The output depends on the content, the title and the URL alone: a
    second run gives the same bytes whatever has happened to the scraper
    in between. *)
Theorem html_to_mdx_document :
  forall (L : Libs) (self : DocumentationScraper)
         (content : node) (title url : str),
    let doc := html_to_mdx self content title url in
    let body :=
      strip is_space
        (render {| ignore_links := false; body_width := 0 |}
           (tag_to_str content)) in
    doc = concat (map (fun l => l ++ [nl]) (header_lines title url)) ++ body /\
    (nl ∉ title -> nl ∉ url ->
     split_lines doc = header_lines title url ++ split_lines body /\
     (split_lines doc !! 1 ≫= read_field (lit "title")) = Some title /\
     (split_lines doc !! 2 ≫= read_field (lit "url")) = Some url) /\
    no_space_at_ends body /\
    (body <> [] ->
     (exists l ls, split_lines body = l :: ls /\ l <> []) /\
     last (split_lines body) <> Some [] /\
     last doc = last body) /\
    (forall L' : Libs,
       @tag_to_str L' = @tag_to_str L ->
       @render L' = @render L ->
       @html_to_mdx L' self content title url = doc) /\
    (forall self' : DocumentationScraper,
       html_to_mdx self' content title url = doc).
Proof.
  intros L self content title url doc body.
  assert (Hdoc : doc = concat (map (fun l => l ++ [nl]) (header_lines title url))
                       ++ body).
  { subst doc body. unfold html_to_mdx, frontmatter, header_lines, quoted, handle.
    cbn [body_width map concat].
    repeat (rewrite <- ?app_assoc; cbn [app]). reflexivity. }
  assert (Hends : no_space_at_ends body)
    by apply no_space_at_ends_clean, clean_ends_strip.
  split_and!.
  - exact Hdoc.
  - intros Ht Hu.
    assert (Hlines : split_lines doc = header_lines title url ++ split_lines body).
    { rewrite Hdoc. apply split_lines_unlines. by apply header_lines_no_break. }
    split; [exact Hlines|]. rewrite Hlines. unfold header_lines.
    split.
    + change (lit "title: ") with (lit "title" ++ lit ": ").
      rewrite <- app_assoc. apply read_field_line.
    + change (lit "url: ") with (lit "url" ++ lit ": ").
      rewrite <- app_assoc. apply read_field_line.
  - exact Hends.
  - intros Hne. destruct Hends as [Hh Hl]. split_and!.
    + destruct body as [|c t] eqn:Eb; [done|].
      apply (split_lines_first _ c); [done|].
      by apply not_space_not_break, Hh.
    + destruct (last body) as [c|] eqn:El.
      * apply (split_lines_last _ c El). by apply not_space_not_break, Hl.
      * apply last_None in El. done.
    + rewrite Hdoc, last_app. destruct (last body) eqn:El; [done|].
      apply last_None in El. done.
  - intros L' Ht Hr. subst doc. unfold html_to_mdx, handle. cbn [body_width].
    by rewrite Ht, Hr.
  - done.
Qed.

Lemma html_to_mdx_document_witness :
  split_lines
    (@html_to_mdx plain_libs (init (lit "https://x.com/docs") (lit "docs"))
       sample_content (lit "Docs") (lit "https://x.com/docs"))
  = header_lines (lit "Docs") (lit "https://x.com/docs")
    ++ split_lines (lit "Helloworld").
Proof.
  apply (proj1 (proj2 (html_to_mdx_document plain_libs
                         (init (lit "https://x.com/docs") (lit "docs"))
                         sample_content (lit "Docs")
                         (lit "https://x.com/docs")))).
  - apply contains_not_elem. reflexivity.
  - apply contains_not_elem. reflexivity.
Defined.

(** ** Link extraction *)

Section LinkFacts.

Context `{Libs}.
Implicit Types (self : DocumentationScraper) (cur href u : str)
  (hrefs : list str) (acc links : gset str).

Lemma collect_links_none self cur hrefs acc :
  collect_links self cur hrefs acc = None <->
  exists href, href ∈ hrefs /\ (urljoin cur href ≫= normalize_url self) = None.
Proof.
  revert acc. induction hrefs as [|h hrefs IH]; intros acc; cbn [collect_links].
  - split; [done|]. intros (href & Hin & _). by apply not_elem_of_nil in Hin.
  - destruct (urljoin cur h) as [a|] eqn:Ej; cbn [mbind option_bind].
    + destruct (normalize_url self a) as [n|] eqn:En; cbn [mbind option_bind].
      * rewrite IH. split; intros (href & Hin & Hf).
        -- exists href. split; [by right | done].
        -- apply elem_of_cons in Hin as [->|Hin]; [|by exists href].
           rewrite Ej in Hf. cbn in Hf. congruence.
      * split; [|done]. intros _. exists h. split; [by left|].
        rewrite Ej. exact En.
    + split; [|done]. intros _. exists h. split; [by left|]. by rewrite Ej.
Qed.

Lemma collect_links_some self cur hrefs acc links :
  collect_links self cur hrefs acc = Some links ->
  (forall u,
     u ∈ links <->
     u ∈ acc \/
     exists href a,
       href ∈ hrefs /\ urljoin cur href = Some a /\
       normalize_url self a = Some u /\ is_valid_url self (Some u) = true) /\
  size links <= size acc + length hrefs.
Proof.
  revert acc. induction hrefs as [|h hrefs IH]; intros acc; cbn [collect_links].
  - intros [= <-]. split; [|lia]. intros u. split; [by left|].
    intros [?|(href & a & Hin & _)]; [done|]. by apply not_elem_of_nil in Hin.
  - destruct (urljoin cur h) as [a|] eqn:Ej; [|done]. cbn [mbind option_bind].
    destruct (normalize_url self a) as [n|] eqn:En; [|done].
    cbn [mbind option_bind]. intros Hc. apply IH in Hc as [Hiff Hsz].
    split.
    + intros u. rewrite Hiff. split.
      * intros [Hacc|(href & a' & Hin & ?)].
        -- destruct (is_valid_url self (Some n)) eqn:Ev; [|by left].
           apply elem_of_union in Hacc as [?|Hn]; [by left|].
           apply elem_of_singleton in Hn as ->. right. exists h, a.
           split; [by left | done].
        -- right. exists href, a'. split; [by right | done].
      * intros [Hacc|(href & a' & Hin & Hj & Hn & Hv)].
        -- left. destruct (is_valid_url self (Some n)); set_solver.
        -- apply elem_of_cons in Hin as [->|Hin].
           ++ left. rewrite Ej in Hj. injection Hj as <-.
              rewrite En in Hn. injection Hn as <-. rewrite Hv. set_solver.
           ++ right. by exists href, a'.
    + cbn [length]. etrans; [exact Hsz|].
      assert (size (if is_valid_url self (Some n) then acc ∪ {[ n ]} else acc)
              <= S (size acc)); [|lia].
      destruct (is_valid_url self (Some n)); [|lia].
      rewrite size_union_alt.
      assert (size ({[ n ]} ∖ acc : gset str) <= 1); [|lia].
      rewrite <- (size_singleton (C := gset str) n).
      apply subseteq_size. set_solver.
Qed.

End LinkFacts.

(** X6. [extract_links] is all or nothing.  It fails exactly when urljoin
    or the normalizer raises on one of the hrefs of the page; otherwise
    the set it returns holds exactly the normalized forms of the hrefs
    that pass the scope filter, so the count of links found is at most the
    number of anchors with an href. *)
Theorem extract_links_all_or_nothing
    `{Libs} (self : DocumentationScraper) (soup : node) (current_url : str) :
  (extract_links self soup current_url = None <->
   exists href,
     href ∈ hrefs_of soup /\
     (urljoin current_url href ≫= normalize_url self) = None) /\
  (forall links,
     extract_links self soup current_url = Some links ->
     (forall u,
        u ∈ links <->
        exists href a,
          href ∈ hrefs_of soup /\ urljoin current_url href = Some a /\
          normalize_url self a = Some u /\
          is_valid_url self (Some u) = true) /\
     size links <= length (hrefs_of soup)).
Proof.
  split; [apply collect_links_none|]. intros links Hl.
  apply collect_links_some in Hl as [Hiff Hsz]. split.
  - intros u. rewrite Hiff. split; [intros [?|?]; [set_solver|done] | by right].
  - by rewrite size_empty in Hsz.
Qed.

Lemma extract_links_all_or_nothing_witness :
  size ({[ lit "https://x.com/docs/b" ]} : gset str)
  <= length (hrefs_of (page "A" ["https://x.com/docs/b";
                                 "https://x.com/docs/b/";
                                 "https://x.com/other"]%string)).
Proof.
  apply (proj2 (@extract_links_all_or_nothing plain_libs
                  (init docs_home (lit "docs"))
                  (page "A" ["https://x.com/docs/b"; "https://x.com/docs/b/";
                             "https://x.com/other"]%string) docs_home)
           {[ lit "https://x.com/docs/b" ]}).
  vm_compute. reflexivity.
Defined.

(** ** The bookkeeping of the crawl *)

Section Bookkeeping.

Context `{Libs}.
Implicit Types (self : DocumentationScraper) (st : crawl) (url : str)
  (resp : response) (dsk : gmap str str) (ls : list (str * response)).

Lemma url_to_filename_base self1 self2 url :
  base_url self1 = base_url self2 ->
  url_to_filename self1 url = url_to_filename self2 url.
Proof. intros Hb. unfold url_to_filename. by rewrite Hb. Qed.

Lemma added_base self1 self2 l :
  base_url self1 = base_url self2 -> added self1 l = added self2 l.
Proof.
  intros Hb. unfold added. destruct l.2 as [|soup [| |left]]; [done| |done|done].
  by rewrite (extract_links_base self1 self2).
Qed.

Lemma completes_base self1 self2 l :
  base_url self1 = base_url self2 -> completes self1 l = completes self2 l.
Proof.
  intros Hb. unfold completes. destruct l.2 as [|soup [| |left]]; [done| |done|done].
  by rewrite (extract_links_base self1 self2).
Qed.

Lemma try_page_saved self dsk url soup :
  try_page self dsk url (Fetched soup Saved)
  = let title := extract_title self soup in
    let filename := url_to_filename self url in
    let dsk' :=
      <[ filename := html_to_mdx self (extract_content self soup).1 title url ]>
        dsk in
    match extract_links self (extract_content self soup).2 url with
    | Some links =>
        (update_to_visit (links ∖ visited_urls self) (count_scraped self),
         dsk', Some (mkResult url title filename (size links)))
    | None => (count_scraped self, dsk', None)
    end.
Proof.
  cbn [try_page]. destruct (extract_content self soup) as [content soup'].
  cbn [fst snd]. by rewrite (extract_links_base (count_scraped self) self).
Qed.

(** Everything one call of the [try] block changes. *)
Lemma try_page_exact self dsk url resp :
  let out := try_page self dsk url resp in
  base_url out.1.1 = base_url self /\
  visited_urls out.1.1 = visited_urls self /\
  urls_to_visit out.1.1
  = urls_to_visit self ∪ (added self (url, resp) ∖ visited_urls self) /\
  scraped_count out.1.1
  = scraped_count self + (if saves (url, resp) then 1 else 0) /\
  (is_Some out.2 <-> completes self (url, resp) = true) /\
  (forall r, out.2 = Some r ->
     result_url r = url /\
     result_filename r = url_to_filename self url /\
     result_title r <> [] /\
     is_Some (out.1.2 !! result_filename r)) /\
  out.1.2 = put_file (url_to_filename self url) (file_of self (url, resp)) dsk.
Proof.
  destruct resp as [|soup [| |rest]].
  - cbn. split_and!; try done; try lia; try set_solver.
    all: try (split; [by intros [? ?] | done]).
  - intros out. subst out. rewrite try_page_saved.
    unfold added, completes, saves, file_of, put_file. cbn [fst snd].
    destruct (extract_links self (extract_content self soup).2 url)
      as [links|]; cbv zeta;
      cbn [fst snd base_url visited_urls urls_to_visit scraped_count
           update_to_visit count_scraped default].
    + split_and!.
      * done.
      * done.
      * done.
      * lia.
      * split; [intros _; by apply bool_decide_eq_true_2 | by eexists].
      * intros r [= <-]. cbn [result_url result_filename result_title].
        split_and!; [done | done | apply extract_title_nonempty |].
        rewrite lookup_insert_eq. by eexists.
      * done.
    + split_and!.
      * done.
      * done.
      * set_solver.
      * lia.
      * split; [by intros [? ?]|]. intros Hc.
        apply bool_decide_eq_true_1 in Hc. by destruct Hc.
      * intros r [=].
      * done.
  - cbn [try_page]. destruct (extract_content self soup) as [content soup'].
    cbn. split_and!; try done; try lia; try set_solver.
    all: try (split; [by intros [? ?] | done]).
  - cbn [try_page]. destruct (extract_content self soup) as [content soup'].
    cbn. split_and!; try done; try lia; try set_solver.
    all: try (split; [by intros [? ?] | done]).
Qed.

Lemma iteration_fresh st url resp :
  url ∉ visited_urls (scraper st) ->
  iteration st url resp
  = let out := try_page (add_visited url (pop url (scraper st)))
                 (disk st) url resp in
    {| scraper := out.1.1;
       results := match out.2 with
                  | Some r => results st ++ [r]
                  | None => results st
                  end;
       disk := out.1.2 |}.
Proof.
  intros Hv. unfold iteration, scrape_page. cbn [pop visited_urls].
  rewrite bool_decide_eq_false_2 by done.
  by destruct (try_page _ _ _ _) as [[? ?] ?].
Qed.

(** Everything one turn of the loop changes, for a URL not yet visited. *)
Lemma iteration_exact st url resp :
  url ∉ visited_urls (scraper st) ->
  let st' := iteration st url resp in
  base_url (scraper st') = base_url (scraper st) /\
  visited_urls (scraper st') = visited_urls (scraper st) ∪ {[ url ]} /\
  urls_to_visit (scraper st')
  = (urls_to_visit (scraper st) ∖ {[ url ]})
    ∪ (added (scraper st) (url, resp)
       ∖ (visited_urls (scraper st) ∪ {[ url ]})) /\
  scraped_count (scraper st')
  = scraped_count (scraper st) + (if saves (url, resp) then 1 else 0) /\
  ((results st' = results st /\ completes (scraper st) (url, resp) = false) \/
   (exists r,
      results st' = results st ++ [r] /\
      completes (scraper st) (url, resp) = true /\
      result_url r = url /\
      result_filename r = url_to_filename (scraper st) url /\
      result_title r <> [] /\
      is_Some (disk st' !! result_filename r))) /\
  disk st' = put_file (url_to_filename (scraper st) url)
               (file_of (scraper st) (url, resp)) (disk st).
Proof.
  intros Hv st'. subst st'. rewrite (iteration_fresh st url resp Hv).
  set (marked := add_visited url (pop url (scraper st))).
  destruct (try_page_exact marked (disk st) url resp)
    as (Hb & Hvis & Hto & Hcount & Hsome & Hres & Hdisk).
  assert (Hbm : base_url marked = base_url (scraper st)) by done.
  cbn zeta. cbn [scraper results disk].
  rewrite Hb, Hvis, Hto, Hcount.
  rewrite (added_base marked (scraper st)) by done.
  rewrite (completes_base marked (scraper st)) in Hsome by done.
  rewrite (url_to_filename_base marked (scraper st)) in Hres, Hdisk by done.
  split_and!; try done.
  - destruct (try_page marked (disk st) url resp).2 as [r|] eqn:Er.
    + right. exists r. destruct (Hres r eq_refl) as (? & ? & ? & ?).
      split_and!; try done. apply Hsome. by eexists.
    + left. split; [done|].
      destruct (completes (scraper st) (url, resp)); [|done].
      destruct Hsome as [_ Hs]. by destruct (Hs eq_refl).
Qed.

Lemma filter_length_le {A} (P Q : A -> Prop)
    `{!forall x, Decision (P x), !forall x, Decision (Q x)} (l : list A) :
  (forall x, P x -> Q x) -> length (filter P l) <= length (filter Q l).
Proof.
  intros HPQ. induction l as [|x l IH]; [done|].
  destruct (decide (P x)) as [HP|HP].
  - rewrite (filter_cons_True P) by done.
    rewrite (filter_cons_True Q) by auto. cbn. lia.
  - rewrite (filter_cons_False P) by done.
    destruct (decide (Q x)).
    + rewrite (filter_cons_True Q) by done. cbn. lia.
    + by rewrite (filter_cons_False Q).
Qed.

Lemma completes_saves self l : completes self l = true -> saves l = true.
Proof. unfold completes, saves. by destruct l.2 as [|soup [| |left]]. Qed.

(** The books of a run from any state in which the two sets are
    disjoint. *)
Lemma steps_books (base out : str) st0 ls st :
  steps st0 ls st ->
  disjoint_sets st0 ->
  base_url (scraper st0) = rstrip is_slash base ->
  NoDup ls.*1 /\
  (forall u, u ∈ ls.*1 -> u ∉ visited_urls (scraper st0)) /\
  visited_urls (scraper st)
  = visited_urls (scraper st0) ∪ list_to_set ls.*1 /\
  scraped_count (scraper st)
  = scraped_count (scraper st0)
    + length (filter (fun l => saves l = true) ls) /\
  length (results st)
  = length (results st0)
    + length (filter (fun l => completes (init base out) l = true) ls) /\
  urls_to_visit (scraper st) ∪ visited_urls (scraper st)
  = urls_to_visit (scraper st0) ∪ visited_urls (scraper st0)
    ∪ ⋃ (added (init base out) <$> ls).
Proof.
  induction 1 as [st|st l st1 ls st2 Hs _ IH]; intros Hd Hb.
  - cbn. split_and!; try done; try lia; try set_solver. constructor.
  - destruct Hs as [st url resp Hu].
    assert (Hv : url ∉ visited_urls (scraper st))
      by (unfold disjoint_sets in Hd; set_solver).
    destruct (iteration_exact st url resp Hv)
      as (Hb1 & Hv1 & Hf1 & Hc1 & Hr1 & _).
    destruct IH as (Hnd & Hfresh & Hvis & Hcount & Hres & Hcover).
    { by apply disjoint_iteration. }
    { by rewrite Hb1. }
    rewrite Hv1 in Hfresh, Hvis. rewrite Hc1 in Hcount.
    rewrite Hf1, Hv1 in Hcover.
    rewrite (added_base (scraper st) (init base out)) in Hcover by done.
    rewrite (completes_base (scraper st) (init base out)) in Hr1 by done.
    assert (Hfu : url ∉ ls.*1).
    { intros Hin. apply Hfresh in Hin. set_solver. }
    cbn [fmap list_fmap fst]. split_and!.
    + by constructor.
    + intros u Hin. apply elem_of_cons in Hin as [->|Hin]; [done|].
      apply Hfresh in Hin. set_solver.
    + rewrite Hvis. cbn [list_to_set foldr]. set_solver.
    + rewrite Hcount. destruct (saves (url, resp)) eqn:Es.
      * rewrite filter_cons_True by done. cbn [length]. lia.
      * rewrite filter_cons_False by congruence. lia.
    + rewrite Hres.
      destruct Hr1 as [[-> Hc]|(r & -> & Hc & _)].
      * rewrite filter_cons_False by congruence. lia.
      * rewrite filter_cons_True by done. rewrite length_app. cbn [length]. lia.
    + rewrite Hcover. cbn [union_list foldr].
      generalize (⋃ (added (init base out) <$> ls)).
      generalize (added (init base out) (url, resp)).
      clear -Hu. intros A U. apply set_eq. intros x.
      rewrite !elem_of_union, !elem_of_difference, !elem_of_union,
        !elem_of_singleton.
      destruct (decide (x = url)) as [->|Hne].
      * split; intros _; [by left; left | by left; right; right].
      * destruct (decide (x ∈ visited_urls (scraper st))); tauto.
Qed.

End Bookkeeping.

Section Provenance.

Context `{Libs}.
Implicit Types (st : crawl) (url : str) (resp : response).

Lemma crawl_sound_iteration (base out : str) st url resp :
  crawl_sound base out st ->
  url ∈ urls_to_visit (scraper st) ->
  crawl_sound base out (iteration st url resp).
Proof.
  intros (Hb & Hd & [Hnd HR] & HD) Hu.
  assert (Hv : url ∉ visited_urls (scraper st))
    by (unfold disjoint_sets in Hd; set_solver).
  destruct (iteration_exact st url resp Hv)
    as (Hb1 & Hv1 & _ & _ & Hr1 & Hd1).
  rewrite (url_to_filename_base (scraper st) (init base out)) in Hr1, Hd1
    by done.
  assert (Hkeep : forall f, is_Some (disk st !! f) ->
                            is_Some (disk (iteration st url resp) !! f)).
  { intros f Hf. rewrite Hd1. unfold put_file.
    destruct (file_of _ _); [|done]. apply lookup_insert_is_Some.
    destruct (decide (url_to_filename (init base out) url = f));
      [by left | by right]. }
  unfold crawl_sound, results_sound, disk_sound.
  split; [|split; [|split]].
  - by rewrite Hb1.
  - by apply disjoint_iteration.
  - destruct Hr1 as [[-> _]|(r & -> & _ & Hru & Hrf & Hrt & Hrd)].
    + split; [done|]. intros r Hr. destruct (HR r Hr) as (? & ? & ? & ?).
      rewrite Hv1. split_and!; [set_solver | done | done | by apply Hkeep].
    + split.
      * rewrite fmap_app. apply NoDup_app. split; [done|]. split.
        -- intros u Hin. cbn. rewrite Hru. intros Hin'.
           apply list_elem_of_singleton in Hin' as ->.
           apply list_elem_of_fmap in Hin as (r' & -> & Hr').
           by destruct (HR r' Hr') as (? & _).
        -- cbn. apply NoDup_singleton.
      * intros r' Hr'. rewrite Hv1. apply elem_of_app in Hr' as [Hr'|Hr'].
        -- destruct (HR r' Hr') as (? & ? & ? & ?).
           split_and!; [set_solver | done | done | by apply Hkeep].
        -- apply list_elem_of_singleton in Hr' as ->. rewrite Hru.
           split_and!; [set_solver | done | done | done].
  - intros f c Hf. rewrite Hv1. rewrite Hd1 in Hf. unfold put_file in Hf.
    destruct (file_of _ _) as [c'|].
    + destruct (decide (url_to_filename (init base out) url = f)) as [<-|Hne].
      * exists url. split; [set_solver | done].
      * rewrite lookup_insert_ne in Hf by done.
        destruct (HD f c Hf) as (u & ? & ?). exists u. split; [set_solver | done].
    + destruct (HD f c Hf) as (u & ? & ?). exists u. split; [set_solver | done].
Qed.



Lemma crawl_sound_steps (base out : str) ls st :
  steps (start base out) ls st -> crawl_sound base out st.
Proof.
  intros Hsteps. eapply steps_invariant; [|exact Hsteps|].
  - intros st' url resp. apply crawl_sound_iteration.
  - split_and!; [done | apply disjoint_start | | done].
    split; [constructor|]. intros r Hr. by apply not_elem_of_nil in Hr.
Qed.

Lemma summary_name_not_mdx : ~ mdx `suffix_of` summary_name.
Proof.
  intros Hs. apply endswith_suffix in Hs. vm_compute in Hs. discriminate Hs.
Qed.

Lemma filter_length_bound {A} (P : A -> Prop) `{!forall x, Decision (P x)}
    (l : list A) :
  length (filter P l) <= length l.
Proof.
  induction l as [|x l IH]; [done|].
  destruct (decide (P x)).
  - rewrite filter_cons_True by done. cbn. lia.
  - rewrite filter_cons_False by done. cbn. lia.
Qed.

End Provenance.

(** X7. The counts of a run add up.  The loop takes every URL at most
    once; Visited is the set of the URLs taken, so its size is the number
    of turns; [scraped_count] is the number of turns in which a file was
    written, and there is one result for each turn that also got its
    links.  Hence results <= scraped pages <= visited URLs, and the first
    two differ by the pages whose link extraction raised after the file
    was saved. *)
Theorem run_counts
    `{Libs} (base out : str) (ls : list (str * response)) (st : crawl) :
  steps (start base out) ls st ->
  NoDup ls.*1 /\
  visited_urls (scraper st) = list_to_set ls.*1 /\
  size (visited_urls (scraper st)) = length ls /\
  scraped_count (scraper st) = length (filter (fun l => saves l = true) ls) /\
  length (results st)
  = length (filter (fun l => completes (init base out) l = true) ls) /\
  length (results st) <= scraped_count (scraper st) /\
  scraped_count (scraper st) <= size (visited_urls (scraper st)).
Proof.
  intros Hsteps.
  destruct (steps_books base out _ _ _ Hsteps (disjoint_start base out) eq_refl)
    as (Hnd & _ & Hvis & Hcount & Hres & _).
  cbn in Hvis, Hcount, Hres.
  assert (Hv : visited_urls (scraper st) = list_to_set ls.*1)
    by (rewrite Hvis; set_solver).
  assert (Hsz : size (visited_urls (scraper st)) = length ls).
  { rewrite Hv, size_list_to_set by done. apply length_fmap. }
  split_and!; try done.
  - rewrite Hres, Hcount. apply filter_length_le. intros l.
    apply completes_saves.
  - rewrite Hcount, Hsz. apply filter_length_bound.
Qed.

Lemma run_counts_witness :
  size (visited_urls (scraper after_two)) = length two_labels.
Proof.
  exact (proj1 (proj2 (proj2
           (@run_counts plain_libs docs_home (lit "docs") two_labels
              after_two two_steps)))).
Defined.

(** X8. The frontier and Visited together are always the seed and the
    links that the turns so far have added.  So when the loop ends, with
    an empty frontier, the visited URLs are exactly the seed and every
    link found on a page that was saved: nothing that was discovered is
    left unvisited, and nothing else is visited. *)
Theorem crawl_covers_discovered
    `{Libs} (base out : str) (ls : list (str * response)) (st : crawl) :
  steps (start base out) ls st ->
  urls_to_visit (scraper st) ∪ visited_urls (scraper st)
  = {[ base ]} ∪ ⋃ (added (init base out) <$> ls) /\
  (urls_to_visit (scraper st) = ∅ ->
   visited_urls (scraper st) = {[ base ]} ∪ ⋃ (added (init base out) <$> ls) /\
   forall l, l ∈ ls -> added (init base out) l ⊆ visited_urls (scraper st)).
Proof.
  intros Hsteps.
  destruct (steps_books base out _ _ _ Hsteps (disjoint_start base out) eq_refl)
    as (_ & _ & _ & _ & _ & Hcover).
  cbn in Hcover.
  assert (Hc : urls_to_visit (scraper st) ∪ visited_urls (scraper st)
               = {[ base ]} ∪ ⋃ (added (init base out) <$> ls))
    by (rewrite Hcover; set_solver).
  split; [exact Hc|]. intros He. rewrite He in Hc.
  assert (Hv : visited_urls (scraper st)
               = {[ base ]} ∪ ⋃ (added (init base out) <$> ls))
    by (rewrite <- Hc; set_solver).
  split; [exact Hv|]. intros l Hl u Hu. rewrite Hv.
  apply elem_of_union. right. apply elem_of_union_list.
  exists (added (init base out) l). split; [|done].
  apply list_elem_of_fmap. by exists l.
Qed.

Lemma crawl_covers_discovered_witness :
  urls_to_visit (scraper after_two) ∪ visited_urls (scraper after_two)
  = {[ docs_home ]}
    ∪ ⋃ (@added plain_libs (init docs_home (lit "docs")) <$> two_labels).
Proof.
  exact (proj1 (@crawl_covers_discovered plain_libs docs_home (lit "docs")
                  two_labels after_two two_steps)).
Defined.

(** X9. The results of a run name no URL twice; each belongs to a visited
    URL, carries the file name that [url_to_filename] gives for that URL
    and a title that is not empty, and its file is on the disk. *)
Theorem results_well_formed
    `{Libs} (base out : str) (ls : list (str * response)) (st : crawl) :
  steps (start base out) ls st ->
  NoDup (result_url <$> results st) /\
  forall r,
    r ∈ results st ->
    result_url r ∈ visited_urls (scraper st) /\
    result_filename r = url_to_filename (scraper st) (result_url r) /\
    result_title r <> [] /\
    is_Some (disk st !! result_filename r).
Proof.
  intros Hsteps.
  destruct (crawl_sound_steps base out ls st Hsteps) as (Hb & _ & [Hnd HR] & _).
  split; [done|]. intros r Hr. destruct (HR r Hr) as (? & Hf & ? & ?).
  split_and!; try done. rewrite Hf. by apply url_to_filename_base.
Qed.

Lemma results_well_formed_witness :
  NoDup (result_url <$> results after_two).
Proof.
  exact (proj1 (@results_well_formed plain_libs docs_home (lit "docs")
                  two_labels after_two two_steps)).
Defined.


(** ** Trailing slashes and the normalizer *)

Section SlashFacts.

Context `{Libs}.
Implicit Types (p : char -> bool) (s t u : str) (c : char).

Lemma rstrip_snoc p s c : p c = true -> rstrip p (s ++ [c]) = rstrip p s.
Proof.
  intros Hc. destruct (rstrip_app p s) as (k & Hs & Hk).
  assert (s ++ [c] = rstrip p s ++ (k ++ [c])) as ->
    by (by rewrite app_assoc, <- Hs).
  apply rstrip_unique.
  - apply Forall_app. split; [done|]. by constructor.
  - apply rstrip_last.
Qed.

Lemma cleaned_app_slash url : cleaned (url ++ ["/"]) = cleaned url ++ ["/"].
Proof.
  unfold cleaned. rewrite lstrip_app_stop by done.
  rewrite filter_app. by rewrite filter_cons_True.
Qed.

Lemma elem_of_cleaned url c : c ∈ cleaned url -> c ∈ url.
Proof.
  unfold cleaned. intros Hin. apply list_elem_of_filter in Hin as [_ Hin].
  by apply elem_of_lstrip in Hin.
Qed.

Lemma split_scheme_app_slash u :
  split_scheme (u ++ ["/"])
  = ((split_scheme u).1, (split_scheme u).2 ++ ["/"]).
Proof.
  unfold split_scheme. rewrite contains_app.
  destruct (contains ":" u) eqn:Ec; cbn [orb andb].
  - rewrite before_app_in, after_app_in by done.
    assert (head_is is_ascii_alpha (u ++ ["/"]) = head_is is_ascii_alpha u) as ->
      by (by destruct u).
    by destruct (head_is is_ascii_alpha u && forallb is_scheme_char (before ":" u)).
  - reflexivity.
Qed.

(** The netloc split of a text with one more slash at its end. *)
Lemma split_netloc_app_slash r :
  match split_netloc r with
  | None => split_netloc (r ++ ["/"]) = None
  | Some (nl, rest) =>
      exists rest',
        split_netloc (r ++ ["/"]) = Some (nl, rest') /\
        (rest' = rest ++ ["/"] \/ (rest = ["/"] /\ rest' = []))
  end.
Proof.
  unfold split_netloc. change (lit "//") with ["/"; "/"].
  destruct r as [|a [|b r]].
  - cbn. eexists. split; [done|]. by left.
  - cbn [app startswith]. rewrite andb_false_r.
    change (eqc "/" "/") with true. cbn [andb].
    destruct (eqc "/" a) eqn:E.
    + apply eqc_true in E as <-. cbn. eexists. split; [done|]. by right.
    + eexists. split; [done|]. by left.
  - cbn [app startswith]. destruct (eqc "/" a && (eqc "/" b && true)).
    + change (drop 2 (a :: b :: r ++ ["/"])) with (r ++ ["/"]).
      change (drop 2 (a :: b :: r)) with r.
      rewrite take_until_app_stop, drop_until_app_stop by done.
      set (nl := take_until is_delim r).
      destruct (xorb _ _); [done|]. destruct (_ && _); [done|].
    destruct (_ && _); [done|].
      eexists. split; [done|]. by left.
    + eexists. split; [done|]. by left.
Qed.


End SlashFacts.

(** X12. A URL and the same URL with one more slash at its end have the
    same normal form, parse error included, as long as the URL holds no
    question mark, hash or semicolon.  This is how the crawler takes
    .../page and .../page/ for one page. *)
Theorem normalize_url_trailing_slash_same
    `{Libs} (self : DocumentationScraper) (url : str) :
  "?" ∉ url -> "#" ∉ url -> ";" ∉ url ->
  normalize_url self (url ++ ["/"]) = normalize_url self url.
Proof.
  intros Hq Hh Hs. unfold normalize_url, urlparse, urlsplit.
  fold (cleaned (url ++ ["/"])) (cleaned url).
  rewrite cleaned_app_slash, split_scheme_app_slash.
  pose proof (split_scheme_rest (cleaned url)) as Hsub.
  destruct (split_scheme (cleaned url)) as [sch r]. cbn [fst snd] in *.
  assert (Hr : forall c, c ∈ r -> c ∈ url)
    by (intros c Hc; by apply elem_of_cleaned, Hsub).
  pose proof (split_netloc_app_slash r) as Hn.
  destruct (split_netloc r) as [[nl rest]|] eqn:En; [|by rewrite Hn].
  destruct Hn as (rest' & -> & Hrest).
  assert (Hrest_in : forall c, c ∈ rest -> c ∈ url).
  { intros c Hc. apply Hr. by eapply split_netloc_rest. }
  assert (Hclean : forall c, c <> "/" -> c ∈ rest' -> c ∈ url).
  { intros c Hne Hc. destruct Hrest as [->|[_ ->]].
    - apply elem_of_app in Hc as [Hc|Hc]; [by apply Hrest_in|].
      by apply list_elem_of_singleton in Hc.
    - by apply not_elem_of_nil in Hc. }
  assert (Hno : forall c rs, c <> "/" -> c ∉ url ->
                 (forall c', c' <> "/" -> c' ∈ rs -> c' ∈ url) ->
                 contains c rs = false).
  { intros c rs Hne Hc Hrs. apply contains_not_elem. intros Hin.
    by apply Hc, Hrs. }
  assert (Hno' : forall c, c ∉ url -> contains c rest = false).
  { intros c Hc. apply contains_not_elem. intros Hin. by apply Hc, Hrest_in. }
  rewrite (before_out "#" rest'), (after_out "#" rest') by (by apply Hno).
  rewrite (before_out "#" rest), (after_out "#" rest) by (by apply Hno').
  rewrite (before_out "?" rest'), (after_out "?" rest') by (by apply Hno).
  rewrite (before_out "?" rest), (after_out "?" rest) by (by apply Hno').
  cbn [scheme netloc path query fragment].
  rewrite (Hno ";" rest'), (Hno' ";"), !andb_false_r by done.
  cbn [query]. f_equal. unfold locator. cbn [scheme netloc path].
  destruct Hrest as [->|[-> ->]].
  - rewrite !app_assoc. apply rstrip_snoc. done.
  - rewrite app_nil_r. rewrite !app_assoc. symmetry. by apply rstrip_snoc.
Qed.

Lemma normalize_url_trailing_slash_same_witness :
  @normalize_url plain_libs (init docs_home (lit "docs"))
    (lit "https://x.com/docs/page" ++ ["/"])
  = @normalize_url plain_libs (init docs_home (lit "docs"))
      (lit "https://x.com/docs/page").
Proof.
  apply (@normalize_url_trailing_slash_same plain_libs
           (init docs_home (lit "docs")) (lit "https://x.com/docs/page"));
    intros Hin; apply contains_elem in Hin; vm_compute in Hin;
    discriminate Hin.
Defined.

(** ** The summary file *)

Lemma one_step :
  @steps plain_libs (start docs_home (lit "docs"))
    [(docs_home, three_pages docs_home)] after_one.
Proof.
  eapply steps_cons; [|apply steps_nil]. apply step_pop. by_compute.
Qed.



(** X11. Writing the summary at the end of [run] touches no page: every
    file that the loop has written is still on the disk with the same
    content, because page names end in .mdx and the summary is
    scraping_summary.txt; the summary is there as well, and the results
    are returned as they were. *)
Theorem summary_keeps_pages
    `{Libs} (base out : str) (ls : list (str * response)) (st : crawl) :
  steps (start base out) ls st ->
  (forall f c,
     disk st !! f = Some c -> disk (write_summary st) !! f = Some c) /\
  disk st !! summary_name = None /\
  disk (write_summary st) !! summary_name
  = Some (summary_text (scraper st) (results st)) /\
  results (write_summary st) = results st.
Proof.
  intros Hsteps.
  destruct (crawl_sound_steps base out ls st Hsteps) as (_ & _ & _ & HD).
  assert (Hname : forall f c, disk st !! f = Some c -> f <> summary_name).
  { intros f c Hf ->. destruct (HD _ _ Hf) as (u & _ & Hu).
    pose proof (url_to_filename_mdx (init base out) u) as Hm.
    rewrite <- Hu in Hm. by apply summary_name_not_mdx. }
  split_and!.
  - intros f c Hf. cbn [write_summary disk].
    rewrite lookup_insert_ne; [done|]. intros Heq. symmetry in Heq.
    by apply (Hname f c).
  - destruct (disk st !! summary_name) as [c|] eqn:E; [|done].
    by destruct (Hname _ _ E).
  - cbn [write_summary disk]. apply lookup_insert_eq.
  - done.
Qed.

Lemma summary_keeps_pages_witness :
  disk after_two !! summary_name = None.
Proof.
  exact (proj1 (proj2 (@summary_keeps_pages plain_libs docs_home (lit "docs")
                          two_labels after_two two_steps))).
Defined.

(** ** The start page *)

Section StartPage.

Implicit Types (s t k old : str) (c : char).

Lemma startswith_all p old s :
  startswith old s = true -> Forall (fun c => p c = true) s ->
  Forall (fun c => p c = true) old.
Proof.
  intros Hp Hs. apply startswith_prefix in Hp as [t ->].
  by apply Forall_app in Hs as [? _].
Qed.

Lemma remove_go_absent p old k :
  ~ Forall (fun c => p c = true) old ->
  Forall (fun c => p c = true) k ->
  remove_go old 0 k = k.
Proof.
  intros Hold. induction 1 as [|c k Hc Hk IH]; [done|].
  cbn [remove_go]. destruct (startswith old (c :: k)) eqn:E.
  - destruct Hold. apply (startswith_all p old (c :: k) E). by constructor.
  - by rewrite IH.
Qed.

Lemma lstrip_all p k : Forall (fun c => p c = true) k -> lstrip p k = [].
Proof. induction 1 as [|c k Hc _ IH]; cbn [lstrip]; [done|]. by rewrite Hc. Qed.

End StartPage.

(** X13. The base URL itself, followed by any number of slashes, gets the
    file name index.mdx, for every base prefix that is not made of
    slashes alone. *)
Theorem url_to_filename_start_page
    `{Libs} (self : DocumentationScraper) (slashes : str) :
  ~ Forall (fun c => is_slash c = true) (base_url self) ->
  Forall (fun c => is_slash c = true) slashes ->
  url_to_filename self (base_url self ++ slashes) = lit "index.mdx".
Proof.
  intros Hb Hk. unfold url_to_filename.
  assert (Hne : base_url self <> []) by (intros E; apply Hb; by rewrite E).
  rewrite remove_all_occurrence by done.
  assert (remove_all (base_url self) slashes = slashes) as ->.
  { unfold remove_all. destruct (base_url self) eqn:E; [done|].
    by apply (remove_go_absent is_slash). }
  unfold strip. rewrite (lstrip_all is_slash slashes Hk). reflexivity.
Qed.

Lemma url_to_filename_start_page_witness :
  @url_to_filename plain_libs (init (lit "https://x.com/docs/") (lit "docs"))
    (base_url (init (lit "https://x.com/docs/") (lit "docs")) ++ lit "//")
  = lit "index.mdx".
Proof.
  apply (@url_to_filename_start_page plain_libs
           (init (lit "https://x.com/docs/") (lit "docs")) (lit "//")).
  - intros Hall. apply Forall_cons in Hall as [Hh _]. vm_compute in Hh.
    discriminate Hh.
  - repeat constructor.
Defined.

(** X14. A base URL that ends in a slash and holds no question mark is
    never among the links that a turn adds, whatever the page: the
    normalizer takes such a slash off.  The seed of such a crawl is
    therefore not recognised when a page links back to the start page;
    the link enters the frontier under its normalized form. *)
Theorem seed_with_slash_never_rediscovered
    `{Libs} (base out : str) (l : str * response) :
  last base = Some "/" ->
  "?" ∉ base ->
  base ∉ added (init base out) l.
Proof.
  intros Hl Hq Hin. unfold added in Hin.
  destruct l.2 as [|soup [| |left]]; [set_solver| |set_solver|set_solver].
  destruct (extract_links _ _ l.1) as [links|] eqn:El; [|set_solver].
  cbn [default] in Hin. unfold extract_links in El.
  destruct (collect_links_sound _ _ _ _ _ _ El Hin) as [?|(_ & x & Hx)];
    [set_solver|].
  by apply normalize_url_trailing_slash in Hx.
Qed.

Lemma seed_with_slash_never_rediscovered_witness :
  lit "https://x.com/docs/"
  ∉ @added plain_libs (init (lit "https://x.com/docs/") (lit "docs"))
      (lit "https://x.com/docs/",
       Fetched (page "A" ["https://x.com/docs/"]%string) Saved).
Proof.
  apply (@seed_with_slash_never_rediscovered plain_libs
           (lit "https://x.com/docs/") (lit "docs")).
  - reflexivity.
  - intros Hin. apply contains_elem in Hin. vm_compute in Hin.
    discriminate Hin.
Defined.
